(** * Reference Highlighter: the left-column token matcher of [app.py]

    A shallow embedding of the Excel helpers, of
    [highlight_left_column_fast] and of the [start] action of [app.py],
    followed by the properties of the specification that they decide.

    Modelling choices.
    - Coordinates are Python floats, that is IEEE 754 binary64 numbers:
      they are Rocq's primitive floats, and [<], [>=], [+], [*] are the
      primitive operations.
    - A Python [str] is a [string]; a character is a code point below 256.
      [str.strip], [str.split], [str.isspace] and [str.lower] follow
      Python on that range (white space is 9-13, 28-31, 32, 133 and 160).
      [str.upper] follows Python on that range but for the characters 181
      and 255, whose upper-case forms lie beyond it: statements about the
      normalization of an arbitrary text exclude these two
      ([Text.has_upper]).
    - A Python [set] of strings is a [gset string], the [dict] [found_map]
      is a [gmap string bool].
    - [st.error(...); st.stop()] ends the script: functions that can stop
      return a sum whose left side is the reason. *)

From Stdlib Require Import Floats ZArith NArith Ascii String List Lia.
From stdpp Require Import gmap strings list sorting.
From Equations Require Import Equations.

Set Warnings "-inexact-float,-clear-no-such-hyp".
Local Open Scope float_scope.

(* ================================================================== *)
(** * Text *)
(* ================================================================== *)

Module Text.
Definition chars : string → list ascii := list_ascii_of_string.
Definition str : list ascii → string := string_of_list_ascii.

Definition code (c : ascii) : N := N_of_ascii c.

Definition between (lo hi : N) (c : ascii) : bool :=
  (lo <=? code c)%N && (code c <=? hi)%N.

(** The class [[A-Za-z0-9]] of [UTR_PATTERN]. *)
Definition is_alnum (c : ascii) : bool :=
  between 65 90 c || between 97 122 c || between 48 57 c.

(** [str.isspace] on one character. *)
Definition is_space (c : ascii) : bool :=
  between 9 13 c || between 28 32 c
  || (code c =? 133)%N || (code c =? 160)%N.

Definition nbsp : ascii := ascii_of_N 160.
Definition space : ascii := ascii_of_N 32.

(** The upper-case form of a character that has one of one character:
    the ASCII letters and the letters 224-254 but 247. *)
Definition upper_char (c : ascii) : ascii :=
  if between 97 122 c || between 224 246 c || between 248 254 c
  then ascii_of_N (code c - 32) else c.

(** The characters [c.upper()] is made of: the sharp s (223) becomes
    ["SS"]. *)
Definition upper_chars (c : ascii) : list ascii :=
  if (code c =? 223)%N then [ascii_of_N 83; ascii_of_N 83]
  else [upper_char c].

(** The characters whose upper-case form is a text of the model: all but
    181 and 255. *)
Definition has_upper (c : ascii) : bool :=
  negb ((code c =? 181)%N || (code c =? 255)%N).

(** The lower-case form of a character: the ASCII letters and the
    letters 192-222 but 215. *)
Definition lower_char (c : ascii) : ascii :=
  if between 65 90 c || between 192 214 c || between 216 222 c
  then ascii_of_N (code c + 32) else c.

(** [s.upper()] and [s.lower()]. *)
Definition upper (s : string) : string :=
  str (c ← chars s; upper_chars c).
Definition lower (s : string) : string := str (map lower_char (chars s)).

Fixpoint lstrip_chars (l : list ascii) : list ascii :=
  match l with
  | c :: l' => if is_space c then lstrip_chars l' else l
  | [] => []
  end.

Definition strip_chars (l : list ascii) : list ascii :=
  rev (lstrip_chars (rev (lstrip_chars l))).

(** [s.strip()]. *)
Definition strip (s : string) : string := str (strip_chars (chars s)).

(** [s.replace("\xa0", " ")]. *)
Definition replace_nbsp_chars (l : list ascii) : list ascii :=
  map (λ c, if decide (c = nbsp) then space else c) l.
Definition replace_nbsp (s : string) : string :=
  str (replace_nbsp_chars (chars s)).

(** The maximal non-empty runs of the characters that satisfy [keep], in
    order; [cur] is the run being read, last character first. *)
Fixpoint runs_go (keep : ascii → bool) (cur l : list ascii)
  : list (list ascii) :=
  match l with
  | [] => match cur with [] => [] | _ => [rev cur] end
  | c :: l' =>
      if keep c then runs_go keep (c :: cur) l'
      else match cur with
           | [] => runs_go keep [] l'
           | _ => rev cur :: runs_go keep [] l'
           end
  end.
Definition runs (keep : ascii → bool) (l : list ascii) : list (list ascii) :=
  runs_go keep [] l.

(** [s.split()]: the maximal runs of characters that are not white space. *)
Definition split (s : string) : list string :=
  str <$> runs (λ c, negb (is_space c)) (chars s).

(** [sep.join(parts)]. *)
Fixpoint join (sep : string) (parts : list string) : string :=
  match parts with
  | [] => ""
  | [p] => p
  | p :: ps => p +:+ sep +:+ join sep ps
  end.

(** [p in s] on strings: [p] starts at some position of [s]. *)
Fixpoint contains (p s : string) : bool :=
  String.prefix p s
  || match s with
     | EmptyString => false
     | String _ s' => contains p s'
     end.

End Text.

(* ================================================================== *)
(** * Excel helpers *)
(* ================================================================== *)

(** [normalize_header]: the label as text, non-breaking spaces replaced,
    white space collapsed, trimmed, lower case. *)
Definition normalize_header (s : string) : string :=
  let s := Text.replace_nbsp s in
  let s := Text.join " " (Text.split s) in
  Text.lower (Text.strip s).

Definition looks_like_utr_header (h : string) : bool :=
  Text.contains "utr" (normalize_header h).

(** The longest prefix of [l] in the class of [UTR_PATTERN]. *)
Fixpoint alnum_prefix (l : list ascii) : list ascii :=
  match l with
  | c :: l' => if Text.is_alnum c then c :: alnum_prefix l' else []
  | [] => []
  end.

(** [UTR_PATTERN.findall]: at each position the greedy [{6,}] takes the
    longest run of the class; with six characters or more it is a match
    and the search goes on after it, with fewer the search moves one
    character on. *)
Equations? findall_chars (l : list ascii) : list (list ascii)
  by wf (length l) lt :=
findall_chars [] := [];
findall_chars (c :: l')
  with decide (6 ≤ length (alnum_prefix (c :: l'))) => {
  | left _ :=
      alnum_prefix (c :: l')
      :: findall_chars (drop (length (alnum_prefix (c :: l'))) (c :: l'));
  | right _ := findall_chars l' }.
Proof.
  all: rewrite ?length_drop; simpl in *; lia.
Qed.

Definition UTR_PATTERN_findall (s : string) : list string :=
  Text.str <$> findall_chars (Text.chars s).

(** A cell of a data frame: [None] is a missing value ([pd.isna]), [Some s]
    a value whose [str(val)] is [s]. *)
Definition cell : Type := option string.

Definition extract_utrs_from_cell (val : cell) : list string :=
  match val with
  | None => []
  | Some s => UTR_PATTERN_findall (Text.strip s)
  end.

(** The tokens one cell adds to the identifier set: the loop body
    [for token in extract_utrs_from_cell(val): utrs.add(token.strip().upper())]. *)
Definition cell_tokens (val : cell) : list string :=
  (λ token, Text.upper (Text.strip token)) <$> extract_utrs_from_cell val.

(** A data frame as [pd.read_excel] returns it: the column labels, in
    order, each with the cells below it. *)
Record DataFrame := { df_columns : list (string * list cell) }.

(** A sheet of a workbook: [read_excel sh hdr] is the result of
    [pd.read_excel(f, sheet_name=sheet, header=hdr, engine="openpyxl")],
    [None] when it raises. *)
Record Sheet := { sheet_name : string; read_excel : nat → option DataFrame }.

(** An uploaded Excel file; [None] when [pd.ExcelFile] raises. *)
Record ExcelFile := { xl_name : string; xl_sheets : option (list Sheet) }.

(** Why the script stopped ([st.error] or [st.warning], then [st.stop]). *)
Inductive stop_reason :=
| MissingInput
| UnableToOpen (name : string)
| NoUtrColumn (name : string)
| NoReferenceIds.

(** [for c in df.columns: if looks_like_utr_header(c): utr_col = c; break],
    giving the cells of that column. *)
Fixpoint find_utr_col (cols : list (string * list cell)) : option (list cell) :=
  match cols with
  | [] => None
  | (c, vals) :: cols' =>
      if looks_like_utr_header c then Some vals else find_utr_col cols'
  end.

(** [df[utr_col].dropna()]. *)
Definition dropna (vals : list cell) : list cell :=
  filter (λ v : cell, is_Some v) vals.

(** The two nested [for] loops that fill [utrs] from a column. *)
Definition add_column (vals : list cell) (utrs : gset string) : gset string :=
  fold_left
    (λ utrs val,
       fold_left (λ utrs token, utrs ∪ {[Text.upper (Text.strip token)]})
                 (extract_utrs_from_cell val) utrs)
    (dropna vals) utrs.

(** [for hdr in range(0, 5)] on one sheet: [Some] is [found = True] with
    the set after the column was added, [None] is the loop running out. *)
Fixpoint scan_headers (sh : Sheet) (hdrs : list nat) (utrs : gset string)
  : option (gset string) :=
  match hdrs with
  | [] => None
  | hdr :: hdrs' =>
      match read_excel sh hdr with
      | None => scan_headers sh hdrs' utrs
      | Some df =>
          match find_utr_col (df_columns df) with
          | None => scan_headers sh hdrs' utrs
          | Some vals => Some (add_column vals utrs)
          end
      end
  end.

(** [for sheet in xls.sheet_names], left at the first sheet that sets
    [found]. *)
Fixpoint scan_sheets (sheets : list Sheet) (utrs : gset string)
  : option (gset string) :=
  match sheets with
  | [] => None
  | sh :: sheets' =>
      match scan_headers sh (seq 0 5) utrs with
      | Some utrs' => Some utrs'
      | None => scan_sheets sheets' utrs
      end
  end.

(** [for f in excel_files] with the accumulated set. *)
Fixpoint load_files (files : list ExcelFile) (utrs : gset string)
  : stop_reason + gset string :=
  match files with
  | [] => inr utrs
  | f :: files' =>
      match xl_sheets f with
      | None => inl (UnableToOpen (xl_name f))
      | Some sheets =>
          match scan_sheets sheets utrs with
          | None => inl (NoUtrColumn (xl_name f))
          | Some utrs' => load_files files' utrs'
          end
      end
  end.

Definition load_utrs_from_excel (excel_files : list ExcelFile)
  : stop_reason + gset string :=
  load_files excel_files ∅.

(* ================================================================== *)
(** * The left-column highlighter *)
(* ================================================================== *)

Definition HEADER_Y_TOP_RATIO : float := 0.18.
Definition DEFAULT_LEFT_BAND_WIDTH : float := 140.

(** Python's [min(a, b)]: the later argument wins only when it is
    smaller. *)
Definition py_min (a b : float) : float := if b <? a then b else a.

(** One tuple of [page.get_text("words")]: [(x0, y0, x1, y1, text, ...)]. *)
Record Word := {
  w_x0 : float; w_y0 : float; w_x1 : float; w_y1 : float;
  w_text : string }.

(** A page: [page.rect.x0], [page.rect.x1], [page.rect.height] and what
    [page.get_text("words")] returns, [None] when it raises. *)
Record Page := {
  rect_x0 : float; rect_x1 : float; rect_height : float;
  get_text_words : option (list Word) }.

(** [fitz.Rect(x0, y0, x1, y1)], the rectangle handed to
    [add_visual_highlight]; colour and opacity are the same for every
    highlight of a run and are left out. *)
Record Rect := { r_x0 : float; r_y0 : float; r_x1 : float; r_y1 : float }.

Inductive band_mode := manual | auto | fallback.

Record Band := { x0_band : float; x1_band : float; mode : band_mode }.

(** The words of a page: [page.get_text("words") or []], and [[]] when
    the call raises. *)
Definition page_words (page : Page) : list Word :=
  default [] (get_text_words page).

Definition y_min (page : Page) : float :=
  rect_height page * HEADER_Y_TOP_RATIO.

(** [wu = str(wtxt).strip().upper()]. *)
Definition word_upper (w : Word) : string := Text.upper (Text.strip (w_text w)).

(** The first loop over the words: the [x0] of the first word that is not
    above [y_min] and whose [wu] is in [utrs_upper]. *)
Fixpoint sample_left_x (ymin : float) (utrs_upper : gset string)
    (words : list Word) : option float :=
  match words with
  | [] => None
  | w :: words' =>
      if w_y0 w <? ymin then sample_left_x ymin utrs_upper words'
      else if decide (word_upper w ∈ utrs_upper) then Some (w_x0 w)
      else sample_left_x ymin utrs_upper words'
  end.

(** The band of a page. *)
Definition compute_band (page : Page) (manual_x1 : option float)
    (sample : option float) : Band :=
  match manual_x1 with
  | Some m => {| x0_band := rect_x0 page; x1_band := m; mode := manual |}
  | None =>
      match sample with
      | Some x0 =>
          {| x0_band := x0;
             x1_band := py_min (rect_x1 page) (x0 + DEFAULT_LEFT_BAND_WIDTH);
             mode := auto |}
      | None =>
          {| x0_band := rect_x0 page;
             x1_band := py_min (rect_x0 page + DEFAULT_LEFT_BAND_WIDTH)
                               (rect_x1 page);
             mode := fallback |}
      end
  end.

(** What the second loop over the words changes: [kept], [found_map] and
    the highlights added to the page. *)
Record Pass := {
  kept : nat;
  found_map : gmap string bool;
  highlights : list Rect }.

(** The three tests of the second loop, in the order of the code. *)
Definition below_header (ymin : float) (w : Word) : bool :=
  negb (w_y0 w <? ymin).

Definition in_band (b : Band) (w : Word) : bool :=
  (x0_band b <=? w_x0 w) && (w_x1 w <=? x1_band b).

Definition word_rect (w : Word) : Rect :=
  {| r_x0 := w_x0 w; r_y0 := w_y0 w; r_x1 := w_x1 w; r_y1 := w_y1 w |}.

Definition match_word (ymin : float) (b : Band) (utrs_upper : gset string)
    (st : Pass) (w : Word) : Pass :=
  if w_y0 w <? ymin then st
  else if negb (in_band b w) then st
  else if decide (word_upper w ∈ utrs_upper) then
    {| kept := S (kept st);
       found_map := <[word_upper w := true]> (found_map st);
       highlights := highlights st ++ [word_rect w] |}
  else st.

Definition match_words (ymin : float) (b : Band) (utrs_upper : gset string)
    (fm : gmap string bool) (words : list Word) : Pass :=
  fold_left (match_word ymin b utrs_upper) words
            {| kept := 0; found_map := fm; highlights := [] |}.

(** The line appended to [logs], before formatting. *)
Record PageLog := {
  log_pno : nat; log_words : nat; log_hits : nat; log_band : Band }.

Definition page_band (utrs_upper : gset string) (manual_x1 : option float)
    (page : Page) : Band :=
  compute_band page manual_x1
    (sample_left_x (y_min page) utrs_upper (page_words page)).

(** The body of [for pno, page in enumerate(doc, start=1)]. *)
Definition process_page (utrs_upper : gset string) (manual_x1 : option float)
    (pno : nat) (page : Page) (fm : gmap string bool) : Pass * PageLog :=
  let words := page_words page in
  let b := page_band utrs_upper manual_x1 page in
  let st := match_words (y_min page) b utrs_upper fm words in
  (st, {| log_pno := pno; log_words := length words;
          log_hits := kept st; log_band := b |}).

(** The state of the page loop: the highlights of the pages done,
    [found_map] and [logs]. *)
Record DocState := {
  ds_out : list (list Rect);
  ds_found : gmap string bool;
  ds_logs : list PageLog }.

Fixpoint process_pages (utrs_upper : gset string) (manual_x1 : option float)
    (pno : nat) (pages : list Page) (st : DocState) : DocState :=
  match pages with
  | [] => st
  | page :: pages' =>
      let '(ps, lg) := process_page utrs_upper manual_x1 pno page (ds_found st) in
      process_pages utrs_upper manual_x1 (S pno) pages'
        {| ds_out := ds_out st ++ [highlights ps];
           ds_found := found_map ps;
           ds_logs := ds_logs st ++ [lg] |}
  end.

(** [highlight_left_column_fast]: the document is the list of its pages,
    the saved PDF is the list of highlights of each page. *)
Definition highlight_left_column_fast (pdf : list Page)
    (utrs_upper : gset string) (manual_x1 : option float) : DocState :=
  process_pages utrs_upper manual_x1 1 pdf
    {| ds_out := [];
       ds_found := gset_to_gmap false utrs_upper;
       ds_logs := [] |}.

(* ================================================================== *)
(** * The [start] action *)
(* ================================================================== *)

(** An uploaded PDF: its name and the pages [fitz.open] gives. *)
Record PdfFile := { pdf_name : string; pdf_pages : list Page }.

(** [sorted(utr_set_upper)]: Python orders strings by their code points. *)
Definition sorted_utrs (utrs : gset string) : list string :=
  merge_sort String.le (elements utrs).

(** [DataFrame.drop_duplicates()]: of equal rows the first one stays. *)
Fixpoint drop_duplicates_go {A} `{EqDecision A} (seen l : list A) : list A :=
  match l with
  | [] => []
  | x :: l' =>
      if decide (x ∈ seen) then drop_duplicates_go seen l'
      else x :: drop_duplicates_go (x :: seen) l'
  end.
Definition drop_duplicates {A} `{EqDecision A} (l : list A) : list A :=
  drop_duplicates_go [] l.

(** [name[:-4] + "_highlighted.pdf"] when the lower-cased name ends in
    [".pdf"], [name + "_highlighted.pdf"] otherwise. *)
Definition out_name (name : string) : string :=
  let cs := Text.chars name in
  let n := length cs in
  if decide (drop (n - 4) (Text.chars (Text.lower name)) = Text.chars ".pdf")
  then Text.str (take (n - 4) cs) +:+ "_highlighted.pdf"
  else name +:+ "_highlighted.pdf".

(** The variables of the loop over [pdf_files]: [csv_rows], [all_logs] and
    the entries written to the ZIP. *)
Record RunState := {
  csv_rows : list (string * bool);
  all_logs : list (string * PageLog);
  zip_entries : list (string * list (list Rect)) }.

(** The rows one document appends:
    [{"Reference": u, "found": bool(found_map.get(u, False))}] for [u] in
    [sorted(utr_set_upper)]. *)
Definition rows_of (utrs : gset string) (fm : gmap string bool)
  : list (string * bool) :=
  (λ u, (u, default false (fm !! u))) <$> sorted_utrs utrs.

(** The body of [for idx, pdf_file in enumerate(pdf_files, start=1)]. *)
Definition run_pdf (utrs : gset string) (manual_x1 : option float)
    (st : RunState) (pdf_file : PdfFile) : RunState :=
  let r := highlight_left_column_fast (pdf_pages pdf_file) utrs manual_x1 in
  {| csv_rows := csv_rows st ++ rows_of utrs (ds_found r);
     all_logs := all_logs st ++ ((λ ln, (pdf_name pdf_file, ln)) <$> ds_logs r);
     zip_entries :=
       zip_entries st ++ [(out_name (pdf_name pdf_file), ds_out r)] |}.

Definition run_pdfs (utrs : gset string) (manual_x1 : option float)
    (pdf_files : list PdfFile) : RunState :=
  fold_left (run_pdf utrs manual_x1) pdf_files
            {| csv_rows := []; all_logs := []; zip_entries := [] |}.

(** What a finished run leaves: the rows of [Reference_report.csv], the
    highlighted documents and the debug log. *)
Record RunResult := {
  report : list (string * bool);
  documents : list (string * list (list Rect));
  debug_log : list (string * PageLog) }.

(** [manual_x1 if manual_band else None]. *)
Definition manual_arg (manual_band : bool) (manual_x1 : float) : option float :=
  if manual_band then Some manual_x1 else None.

(** The report of a run over [pdf_files] with the identifiers [utrs]. *)
Definition report_of (utrs : gset string) (manual_x1 : option float)
    (pdf_files : list PdfFile) : list (string * bool) :=
  drop_duplicates (csv_rows (run_pdfs utrs manual_x1 pdf_files)).

(** [if start: ...]. *)
Definition start (excel_files : list ExcelFile) (pdf_files : list PdfFile)
    (manual_band : bool) (manual_x1 : float) : stop_reason + RunResult :=
  match excel_files, pdf_files with
  | [], _ | _, [] => inl MissingInput
  | _, _ =>
      match load_utrs_from_excel excel_files with
      | inl why => inl why
      | inr utr_set_upper =>
          if decide (utr_set_upper = ∅) then inl NoReferenceIds
          else
            let m := manual_arg manual_band manual_x1 in
            let st := run_pdfs utr_set_upper m pdf_files in
            inr {| report := drop_duplicates (csv_rows st);
                   documents := zip_entries st;
                   debug_log := all_logs st |}
      end
  end.

(** ** The values [found_map] takes during a run *)

(** [found_map] after the matching pass of one page. *)
Definition page_found (utrs : gset string) (manual_x1 : option float)
    (page : Page) (fm : gmap string bool) : gmap string bool :=
  found_map (fst (process_page utrs manual_x1 0 page fm)).

(** [found_map] before the first page and after each page, starting
    from [fm]. *)
Fixpoint found_history (utrs : gset string) (manual_x1 : option float)
    (pages : list Page) (fm : gmap string bool) : list (gmap string bool) :=
  fm :: match pages with
        | [] => []
        | page :: pages' =>
            found_history utrs manual_x1 pages'
              (page_found utrs manual_x1 page fm)
        end.

(** The values of [found_map] in one call of [highlight_left_column_fast]. *)
Definition doc_history (utrs : gset string) (manual_x1 : option float)
    (pdf : list Page) : list (gmap string bool) :=
  found_history utrs manual_x1 pdf (gset_to_gmap false utrs).

(** The values of [found_map] during the whole run, document after
    document. *)
Definition run_history (utrs : gset string) (manual_x1 : option float)
    (pdf_files : list PdfFile) : list (gmap string bool) :=
  pdf_file ← pdf_files; doc_history utrs manual_x1 (pdf_pages pdf_file).

(** A sequence of found-maps is monotone when a flag that is true at one
    point is true at every later point. *)
Definition monotone_found (h : list (gmap string bool)) : Prop :=
  ∀ i j m1 m2 u,
    i ≤ j → h !! i = Some m1 → h !! j = Some m2 →
    m1 !! u = Some true → m2 !! u = Some true.

(* ================================================================== *)
(** * Colour and opacity *)
(* ================================================================== *)

(** Python's [max(a, b)]: the later argument wins only when it is
    greater. *)
Definition py_max (a b : float) : float := if a <? b then b else a.

(** [alpha = max(0.2, min(0.9, opacity_pct / 100.0))]; [opacity_pct] is
    the slider value as a float. *)
Definition alpha_of (opacity_pct : float) : float :=
  py_max 0.2 (py_min 0.9 (opacity_pct / 100)).

(** The value of a digit in base 16. *)
Definition hex_value (c : ascii) : option Z :=
  if Text.between 48 57 c then Some (Z.of_N (Text.code c) - 48)%Z
  else if Text.between 97 102 c then Some (Z.of_N (Text.code c) - 87)%Z
  else if Text.between 65 70 c then Some (Z.of_N (Text.code c) - 55)%Z
  else None.

(** The white space [int(s, 16)] accepts around the number. *)
Definition int_space (c : ascii) : bool :=
  Text.between 9 13 c || (Text.code c =? 32)%N
  || (Text.code c =? 133)%N || (Text.code c =? 160)%N.

Fixpoint lstrip_int (l : list ascii) : list ascii :=
  match l with
  | c :: l' => if int_space c then lstrip_int l' else l
  | [] => []
  end.

(** The digits of [int(s, 16)] once white space, sign and prefix are
    gone: digits with single underscores between them. [acc] is the
    value read so far, [prev] tells that the last character was an
    underscore. *)
Fixpoint hex_digits (acc : Z) (prev : bool) (l : list ascii) : option Z :=
  match l with
  | [] => if prev then None else Some acc
  | c :: l' =>
      match hex_value c with
      | Some d => hex_digits (16 * acc + d)%Z false l'
      | None =>
          if decide (c = "_"%char) then
            if prev then None else hex_digits acc true l'
          else if forallb int_space l then
            if prev then None else Some acc
          else None
      end
  end.

(** [int(s, 16)]: white space around, an optional sign, an optional
    ["0x"] prefix that one underscore may follow, then at least one digit;
    [None] is [ValueError]. *)
Definition int_base16 (s : list ascii) : option Z :=
  let s := lstrip_int s in
  let '(negative, s) :=
    match s with
    | "-"%char :: s' => (true, s')
    | "+"%char :: s' => (false, s')
    | _ => (false, s)
    end in
  let s :=
    match s with
    | "0"%char :: x :: s' =>
        if decide (x = "x"%char ∨ x = "X"%char) then
          match s' with "_"%char :: s'' => s'' | _ => s' end
        else s
    | _ => s
    end in
  match s with
  | [] => None
  | c :: _ =>
      match hex_value c with
      | None => None
      | Some _ =>
          (λ n, if negative then (- n)%Z else n) <$> hex_digits 0 false s
      end
  end.

(** A Python [int] of small magnitude as a float. *)
Definition float_of_int (n : Z) : float :=
  if (n <? 0)%Z then - PrimFloat.of_uint63 (Uint63.of_Z (- n))
  else PrimFloat.of_uint63 (Uint63.of_Z n).

(** [hex_color.lstrip("#")]. *)
Fixpoint lstrip_hash (l : list ascii) : list ascii :=
  match l with
  | c :: l' => if decide (c = "#"%char) then lstrip_hash l' else l
  | [] => []
  end.

(** [int(h[i:i+2], 16) / 255]. *)
Definition rgb_component (h : list ascii) (i : nat) : option float :=
  (λ n, float_of_int n / 255) <$> int_base16 (take 2 (drop i h)).

(** [hex_to_rgb01]; [None] when an [int(..., 16)] raises. *)
Definition hex_to_rgb01 (hex_color : string) : option (float * float * float) :=
  let h := lstrip_hash (Text.chars hex_color) in
  r ← rgb_component h 0;
  g ← rgb_component h 2;
  b ← rgb_component h 4;
  Some (r, g, b).

(* ================================================================== *)
(** * Notions used in the statements *)
(* ================================================================== *)

(** A word can start the band of a page: it is not above [y_min] and its
    normalized text is an identifier. *)
Definition band_seed (ymin : float) (utrs : gset string) (w : Word) : Prop :=
  below_header ymin w = true ∧ word_upper w ∈ utrs.

(** A word is a hit of the pass with band [b]: it passes the three tests
    of [match_word]. *)
Definition hit (ymin : float) (b : Band) (utrs : gset string) (w : Word) : Prop :=
  below_header ymin w = true ∧ in_band b w = true ∧ word_upper w ∈ utrs.

#[local] Instance hit_dec ymin b utrs w : Decision (hit ymin b utrs w).
Proof. unfold hit. apply _. Defined.

(** [found_map[u] = True] for each [u] of [ids], in order. *)
Definition mark_found (ids : list string) (fm : gmap string bool)
  : gmap string bool :=
  fold_left (λ m u, <[u := true]> m) ids fm.

(** The identifiers a page marks: the normalized texts of its hits. *)
Definition page_ids (utrs : gset string) (manual_x1 : option float)
    (page : Page) : list string :=
  word_upper
    <$> filter (hit (y_min page) (page_band utrs manual_x1 page) utrs)
               (page_words page).

(** [found_map] after the pages [pages], starting from [fm]. *)
Definition pages_found (utrs : gset string) (manual_x1 : option float)
    (pages : list Page) (fm : gmap string bool) : gmap string bool :=
  fold_left (λ fm page, page_found utrs manual_x1 page fm) pages fm.

(** The sheet and header-row combinations of a workbook in the order the
    loops visit them: sheet after sheet, header rows 0 to 4 of each. *)
Definition scan_order (sheets : list Sheet) : list (Sheet * nat) :=
  sh ← sheets; (λ hdr, (sh, hdr)) <$> seq 0 5.

(** The cells under the first "utr"-like label of a combination, when the
    sheet can be read with that header row and has such a label. *)
Definition utr_column (c : Sheet * nat) : option (list cell) :=
  df ← read_excel c.1 c.2; find_utr_col (df_columns df).

(** The column of the first combination that has one. *)
Fixpoint first_column (cs : list (Sheet * nat)) : option (list cell) :=
  match cs with
  | [] => None
  | c :: cs' =>
      match utr_column c with
      | Some vals => Some vals
      | None => first_column cs'
      end
  end.

(** The texts whose upper-case form is a text of the model: those
    without the characters 181 and 255.  On them [Text.upper] is
    [str.upper]. *)
Definition upper_known (text : string) : Prop :=
  Forall (λ c, Text.has_upper c = true) (Text.chars text).

(** The reference tokenizer of the specification, written on its own:
    the class of letters and digits, the upper-case form of a letter, the
    replacement of a non-breaking space by a space, then the runs of six
    or more characters of the class, each upper-cased. *)
Definition spec_alnum (c : ascii) : bool :=
  let n := N_of_ascii c in
  ((48 <=? n) && (n <=? 57) || (65 <=? n) && (n <=? 90)
   || (97 <=? n) && (n <=? 122))%N.

Definition spec_upper (c : ascii) : ascii :=
  let n := N_of_ascii c in
  if ((97 <=? n) && (n <=? 122))%N then ascii_of_N (n - 32) else c.

Definition spec_unbreak (c : ascii) : ascii :=
  if (N_of_ascii c =? 160)%N then ascii_of_N 32 else c.

Definition spec_tokens (text : string) : list string :=
  (λ r, string_of_list_ascii (map spec_upper r))
    <$> filter (λ r, 6 ≤ length r)
          (Text.runs spec_alnum
             (map spec_unbreak (list_ascii_of_string text))).

(** The column a source contributes: the one of the first sheet and
    header-row combination with a "utr"-like label, when the file opens
    and has one. *)
Definition file_column (f : ExcelFile) : option (list cell) :=
  sheets ← xl_sheets f; first_column (scan_order sheets).

(** Why loading stops at a source without a column. *)
Definition file_stop (f : ExcelFile) : stop_reason :=
  match xl_sheets f with
  | None => UnableToOpen (xl_name f)
  | Some _ => NoUtrColumn (xl_name f)
  end.

(** The characters of an identifier: upper-case letters and digits. *)
Definition is_id_char (c : ascii) : bool :=
  Text.between 65 90 c || Text.between 48 57 c.

(** The 256 characters, and the check that the two-digit text [d1 d2]
    is read as [16 * v1 + v2] and gives a component between 0 and 1. *)
Definition all_ascii : list ascii := ascii_of_nat <$> seq 0 256.

Definition hex_pair_ok (d1 d2 : ascii) : bool :=
  match hex_value d1, hex_value d2 with
  | Some v1, Some v2 =>
      let n := (16 * v1 + v2)%Z in
      bool_decide (int_base16 [d1; d2] = Some n)
      && (0 <=? float_of_int n / 255) && (float_of_int n / 255 <=? 1)
  | _, _ => true
  end.

(** The text [q] occurs in [l] as a contiguous piece. *)
Definition occurs (q l : list ascii) : Prop := ∃ l1 l2, l = l1 ++ q ++ l2.

(** The letters looked for in a header label. *)
Definition utr : list ascii := Text.chars "utr".

(** The characters of [" ".join(parts)]. *)
Fixpoint join_chars (parts : list (list ascii)) : list ascii :=
  match parts with
  | [] => []
  | [p] => p
  | p :: ps => p ++ Text.space :: join_chars ps
  end.

(* ================================================================== *)
(** * Sample inputs *)
(* ================================================================== *)

Module Samples.

Definition word (x0 y0 x1 : float) (text : string) : Word :=
  {| w_x0 := x0; w_y0 := y0; w_x1 := x1; w_y1 := y0 + 12; w_text := text |}.

(** A page 600 points wide and 1000 points high. *)
Definition page_of (words : list Word) : Page :=
  {| rect_x0 := 0; rect_x1 := 600; rect_height := 1000;
     get_text_words := Some words |}.

Definition utrs : gset string := {[ "Q1435783" ]}.

(** The first matching word is neither the leftmost nor the topmost. *)
Definition page_first_match : Page :=
  page_of [ word 40 100 90 "Q1435783";
            word 300 700 360 "q1435783";
            word 50 250 110 "Q1435783" ].

(** No matching word below the header. *)
Definition page_no_match : Page :=
  page_of [ word 40 100 90 "Q1435783"; word 50 250 110 "Q143578A" ].

(** A page narrower than the manual boundary 480. *)
Definition page_narrow : Page :=
  {| rect_x0 := 0; rect_x1 := 300; rect_height := 400;
     get_text_words := Some [ word 10 100 70 "Q1435783" ] |}.

(** The band is [50, 190]: one word starts it, one straddles its right
    edge, one lies inside. *)
Definition page_straddle : Page :=
  page_of [ word 50 200 100 "Q1435783";
            word 180 300 210 "Q1435783";
            word 60 400 185 "Q1435783" ].


End Samples.

Module Runs.

(** A document whose only page shows the identifier in the band, and one
    whose only page does not show it. *)
Definition pdf_hit : PdfFile :=
  {| pdf_name := "a.pdf";
     pdf_pages := [ Samples.page_of [ Samples.word 50 200 110 "Q1435783" ] ] |}.
Definition pdf_miss : PdfFile :=
  {| pdf_name := "b.pdf";
     pdf_pages := [ Samples.page_of [ Samples.word 50 200 110 "TOTAL" ] ] |}.

End Runs.

Module Books.

(** A workbook whose first sheet has the column ["UTR No"] in its first
    row. *)
Definition frame : DataFrame :=
  {| df_columns := [ ("Date", [Some "01/02/2024"]);
                     ("UTR No", [Some "Q1435783"]) ] |}.
Definition sheet : Sheet :=
  {| sheet_name := "Sheet1";
     read_excel := λ hdr, match hdr with O => Some frame | _ => None end |}.
Definition book : ExcelFile :=
  {| xl_name := "refs.xlsx"; xl_sheets := Some [sheet] |}.

End Books.

Module Books2.

Definition no_utr : DataFrame :=
  {| df_columns := [ ("Date", [Some "01/02/2024"]);
                     ("Amount", [Some "1200"]) ] |}.
Definition late_header : DataFrame :=
  {| df_columns := [ ("Sl", [Some "1"]);
                     (" Utr  Number ", [Some "ref q1435783 ok"; None]) ] |}.
Definition other : DataFrame :=
  {| df_columns := [ ("UTR", [Some "ZZ99887766"]) ] |}.

(** The first sheet never shows a "utr" label; the second shows one with
    header row 2 and another one with header row 3. *)
Definition cover : Sheet :=
  {| sheet_name := "Cover"; read_excel := λ _, Some no_utr |}.
Definition data : Sheet :=
  {| sheet_name := "Data";
     read_excel := λ hdr,
       match hdr with
       | 0 | 1 => Some no_utr
       | 2 => Some late_header
       | 3 => Some other
       | _ => None
       end%nat |}.

Definition good : ExcelFile :=
  {| xl_name := "good.xlsx"; xl_sheets := Some [cover; data] |}.
Definition bad : ExcelFile :=
  {| xl_name := "bad.xlsx"; xl_sheets := Some [cover] |}.

End Books2.

Module Pages.

(** The first matching word starts at 500 on a page 600 wide: the band
    is cut at the page edge.  Its text is padded and in lower case. *)
Definition page_clipped : Page :=
  Samples.page_of [ Samples.word 500 300 560 " q1435783 " ].

(** A page 100 wide whose only matching word is in the header. *)
Definition page_slim : Page :=
  {| rect_x0 := 0; rect_x1 := 100; rect_height := 1000;
     get_text_words :=
       Some [ Samples.word 10 100 70 "Q1435783";
              Samples.word 10 300 70 "TOTAL" ] |}.

(** Identifiers as the loader never stores them, in lower case or with
    a space in front, and a page that shows these very texts below the
    header: normalized, neither text is in the set. *)
Definition raw_utrs : gset string := {[ "q1435783"; " Q1435783" ]}.
Definition page_raw : Page :=
  Samples.page_of [ Samples.word 50 250 110 "q1435783";
                    Samples.word 60 300 120 " Q1435783" ].


(** A word inside the band [50, 190] of a page whose threshold is 180,
    its text padded and in lower case. *)
Definition padded_word : Word := Samples.word 60 400 185 "  q1435783 ".

(** Words with letters beyond ASCII: a sharp s (223), whose upper-case
    form is ["SS"], and an e with acute accent (233), whose upper-case
    form is the character 201; and the identifiers they show. *)
Definition sharp_s_word : Word :=
  Samples.word 60 400 185 ("stra" +:+ String (ascii_of_N 223) "e9").
Definition accent_word : Word :=
  Samples.word 60 420 185 (String "r" (String (ascii_of_N 233) "f12345")).
Definition latin_utrs : gset string :=
  {[ "STRASSE9"; String "R" (String (ascii_of_N 201) "F12345") ]}.
Definition latin_pass : Pass :=
  {| kept := 0; found_map := gset_to_gmap false latin_utrs;
     highlights := [] |}.

Definition band_50_190 : Band :=
  {| x0_band := 50; x1_band := 190; mode := auto |}.

Definition fresh_pass : Pass :=
  {| kept := 0; found_map := gset_to_gmap false Samples.utrs;
     highlights := [] |}.

End Pages.

(* ================================================================== *)
(** * Order facts about binary64 comparisons *)
(* ================================================================== *)

Section float_order.

Lemma SFcompare_swap f1 f2 :
  SFcompare f2 f1 = CompOpp <$> SFcompare f1 f2.
Proof.
  destruct f1 as [s1|s1| |s1 m1 e1], f2 as [s2|s2| |s2 m2 e2];
    try destruct s1; try destruct s2; simpl; try reflexivity.
  all: rewrite (Z.compare_antisym e1 e2);
    destruct (e1 ?= e2)%Z; simpl; try reflexivity.
  all: rewrite (Pos.compare_cont_antisym m1 m2 Eq); simpl;
    rewrite ?CompOpp_involutive; reflexivity.
Qed.

Lemma ltb_asym x y : (x <? y) = true → (y <? x) = false.
Proof.
  rewrite !FloatAxioms.ltb_spec. unfold SFltb.
  rewrite (SFcompare_swap (Prim2SF x)).
  destruct (SFcompare _ _) as [[]|]; simpl; congruence.
Qed.

Lemma ltb_irrefl x : (x <? x) = false.
Proof.
  destruct (x <? x) eqn:E; [|done]. by rewrite <-E, (ltb_asym _ _ E).
Qed.


(** [py_min] never exceeds either argument. *)
Lemma py_min_not_above_l a b : (a <? py_min a b) = false.
Proof.
  unfold py_min. destruct (b <? a) eqn:E.
  - by apply ltb_asym.
  - apply ltb_irrefl.
Qed.

Lemma py_min_not_above_r a b : (b <? py_min a b) = false.
Proof.
  unfold py_min. destruct (b <? a) eqn:E.
  - apply ltb_irrefl.
  - done.
Qed.

End float_order.

(* ================================================================== *)
(** * The band of a page *)
(* ================================================================== *)

Section band.
Context (utrs : gset string).

Lemma sample_left_x_skip ymin pre rest :
  Forall (λ v, ¬ band_seed ymin utrs v) pre →
  sample_left_x ymin utrs (pre ++ rest) = sample_left_x ymin utrs rest.
Proof.
  unfold band_seed, below_header.
  induction 1 as [|v pre Hv _ IH]; [done|]. simpl.
  destruct (w_y0 v <? ymin); [done|].
  case_decide; [|done]. destruct Hv. done.
Qed.

Lemma sample_left_x_seed ymin w rest :
  band_seed ymin utrs w →
  sample_left_x ymin utrs (w :: rest) = Some (w_x0 w).
Proof.
  unfold band_seed, below_header. intros [Hy Hin]. simpl.
  destruct (w_y0 w <? ymin); [done|]. by rewrite decide_True.
Qed.

Lemma sample_left_x_none ymin words :
  Forall (λ v, ¬ band_seed ymin utrs v) words →
  sample_left_x ymin utrs words = None.
Proof.
  intros H. rewrite <-(app_nil_r words). by rewrite sample_left_x_skip.
Qed.

(** A list with a seed splits at its first seed. *)
Lemma first_seed ymin words :
  Exists (band_seed ymin utrs) words →
  ∃ pre w post,
    words = pre ++ w :: post
    ∧ Forall (λ v, ¬ band_seed ymin utrs v) pre
    ∧ band_seed ymin utrs w.
Proof.
  induction words as [|v words IH]; intros HE; [by inversion HE|].
  assert (Decision (band_seed ymin utrs v)) as [Hv|Hv]
    by (unfold band_seed; apply _).
  - exists [], v, words. split; [done|]. split; [constructor|done].
  - inversion HE as [|? ? HE']; subst; [done|].
    destruct (IH HE') as (pre & w & post & -> & Hpre & Hw).
    exists (v :: pre), w, post. split; [done|]. split; [by constructor|done].
Qed.

End band.

(** The tests of the code, written out: a word can start the band when
    its top is not less than [page_height * 0.18] and its text, trimmed
    and upper-cased, is an identifier. *)
Lemma band_seed_tests utrs page v :
  band_seed (y_min page) utrs v
  ↔ (w_y0 v <? rect_height page * 0.18) = false
    ∧ Text.upper (Text.strip (w_text v)) ∈ utrs.
Proof.
  unfold band_seed, below_header, y_min, HEADER_Y_TOP_RATIO, word_upper.
  by rewrite negb_true_iff.
Qed.

(** C3. On a page with no manual boundary (and words whose upper-case
    form the model has), a word can start the band
    when its top is not less than [page_height * 0.18] and its text,
    trimmed and upper-cased, is in the identifier set.  If the page has
    such a word, its words split at the first one in word order; and for
    the first such word [w], whatever lies further left or higher, the
    band starts at the left coordinate of [w], ends at [x0_band + 140]
    when that is less than [page_right] and at [page_right] otherwise,
    and its mode is [auto]. *)
Theorem C3_auto_band_first_match (utrs : gset string) (page : Page) :
  Forall (λ v, upper_known (w_text v)) (page_words page) →
  let seed (v : Word) : Prop :=
    (w_y0 v <? rect_height page * 0.18) = false
    ∧ Text.upper (Text.strip (w_text v)) ∈ utrs in
  (Exists seed (page_words page) →
   ∃ pre w post,
     page_words page = pre ++ w :: post
     ∧ Forall (λ v, ¬ seed v) pre ∧ seed w)
  ∧ ∀ pre w post,
      page_words page = pre ++ w :: post →
      Forall (λ v, ¬ seed v) pre →
      seed w →
      page_band utrs None page
      = {| x0_band := w_x0 w;
           x1_band := if w_x0 w + 140 <? rect_x1 page
                      then w_x0 w + 140 else rect_x1 page;
           mode := auto |}.
Proof.
  intros _ seed.
  assert (∀ v, seed v ↔ band_seed (y_min page) utrs v) as Hseed
    by (intros v; subst seed; by rewrite band_seed_tests).
  split.
  - intros HE.
    destruct (first_seed utrs (y_min page) (page_words page))
      as (pre & w & post & Hw & Hpre & Hs).
    { eapply Exists_impl; [done|]. intros v. apply Hseed. }
    exists pre, w, post. split; [done|]. split; [|by apply Hseed].
    eapply Forall_impl; [done|]. intros v Hv ?. by apply Hv, Hseed.
  - intros pre w post Hw Hpre Hs. unfold page_band.
    rewrite Hw, sample_left_x_skip, (sample_left_x_seed utrs _ w).
    + reflexivity.
    + by apply Hseed.
    + eapply Forall_impl; [done|]. intros v Hv ?. by apply Hv, Hseed.
Qed.

(** On [page_first_match] the band is [300, 440]: it starts at the first
    matching word below the header, whose text is in lower case, although
    the word at 50 is further left and higher on the page and the word at
    40 is in the header.  On [page_clipped] the first match starts at
    500 and the band is cut at the page edge 600. *)
Lemma C3_auto_band_witness :
  page_band Samples.utrs None Samples.page_first_match
  = {| x0_band := 300; x1_band := 440; mode := auto |}
  ∧ page_band Samples.utrs None Pages.page_clipped
    = {| x0_band := 500; x1_band := 600; mode := auto |}.
Proof.
  split.
  - apply (proj2 (C3_auto_band_first_match Samples.utrs
                    Samples.page_first_match
                    ltac:(repeat constructor))
             [Samples.word 40 100 90 "Q1435783"]
             (Samples.word 300 700 360 "q1435783")
             [Samples.word 50 250 110 "Q1435783"]).
    + reflexivity.
    + repeat constructor. intros [Hy _]. vm_compute in Hy. discriminate Hy.
    + split; [reflexivity|]. apply elem_of_singleton. reflexivity.
  - apply (proj2 (C3_auto_band_first_match Samples.utrs Pages.page_clipped
                    ltac:(repeat constructor))
             [] (Samples.word 500 300 560 " q1435783 ") []).
    + reflexivity.
    + constructor.
    + split; [reflexivity|]. apply elem_of_singleton. reflexivity.
Defined.

(** C4. On a page with no manual boundary (and words whose upper-case
    form the model has) and no word whose top is not
    less than [page_height * 0.18] and whose trimmed, upper-cased text is
    an identifier, the band starts at [page_left], ends at [page_right]
    when that is less than [page_left + 140] and at [page_left + 140]
    otherwise, and its mode is [fallback]. *)
Theorem C4_fallback_band (utrs : gset string) (page : Page) :
  Forall (λ v, upper_known (w_text v)) (page_words page) →
  Forall (λ v, ¬ ((w_y0 v <? rect_height page * 0.18) = false
                  ∧ Text.upper (Text.strip (w_text v)) ∈ utrs))
         (page_words page) →
  page_band utrs None page
  = {| x0_band := rect_x0 page;
       x1_band := if rect_x1 page <? rect_x0 page + 140
                  then rect_x1 page else rect_x0 page + 140;
       mode := fallback |}.
Proof.
  intros _ H. unfold page_band. rewrite sample_left_x_none; [reflexivity|].
  eapply Forall_impl; [done|]. intros v Hv ?. by apply Hv, band_seed_tests.
Qed.

(** The page 600 wide gets the band [0, 140], the page 100 wide the
    band [0, 100].  The test is on the normalized text: with the set
    [raw_utrs] the page that shows the members of the set as they are
    gets the fallback band too. *)
Lemma C4_fallback_band_witness :
  page_band Samples.utrs None Samples.page_no_match
  = {| x0_band := 0; x1_band := 140; mode := fallback |}
  ∧ page_band Samples.utrs None Pages.page_slim
    = {| x0_band := 0; x1_band := 100; mode := fallback |}
  ∧ page_band Pages.raw_utrs None Pages.page_raw
    = {| x0_band := 0; x1_band := 140; mode := fallback |}.
Proof.
  split; [|split].
  3: { apply (C4_fallback_band Pages.raw_utrs Pages.page_raw
                ltac:(repeat constructor)).
       repeat constructor; intros [_ Hin];
         apply elem_of_union in Hin as [Hin|Hin];
         apply elem_of_singleton in Hin; vm_compute in Hin; discriminate Hin. }
  - apply (C4_fallback_band Samples.utrs Samples.page_no_match
             ltac:(repeat constructor)).
    repeat constructor; intros [Hy Hin].
    + vm_compute in Hy. discriminate Hy.
    + apply elem_of_singleton in Hin. vm_compute in Hin. discriminate Hin.
  - apply (C4_fallback_band Samples.utrs Pages.page_slim
             ltac:(repeat constructor)).
    repeat constructor; intros [Hy Hin].
    + vm_compute in Hy. discriminate Hy.
    + apply elem_of_singleton in Hin. vm_compute in Hin. discriminate Hin.
Defined.

(** C10. With a manual right boundary [m] the band of every page is
    [page_left, m] with mode [manual], whatever the words of the page;
    [m] is not clipped: on a page 300 points wide the boundary 480 gives
    a band that ends beyond the page, while without a manual boundary
    the band never ends beyond the right edge of the page and its mode is
    [auto] or [fallback]. *)
Theorem C10_manual_band_not_clipped (utrs : gset string) (page : Page) (m : float) :
  page_band utrs (Some m) page
  = {| x0_band := rect_x0 page; x1_band := m; mode := manual |}
  ∧ (rect_x1 Samples.page_narrow
       <? x1_band (page_band utrs (Some 480) Samples.page_narrow)) = true
  ∧ (rect_x1 page <? x1_band (page_band utrs None page)) = false
  ∧ mode (page_band utrs None page) ≠ manual.
Proof.
  split; [done|]. split; [done|].
  unfold page_band, compute_band.
  destruct (sample_left_x _ _ _); simpl.
  - split; [apply py_min_not_above_l|done].
  - split; [apply py_min_not_above_r|done].
Qed.

(* ================================================================== *)
(** * The matching pass *)
(* ================================================================== *)

Section matching_pass.
Context (ymin : float) (b : Band) (utrs : gset string).

Lemma match_word_hit st w :
  hit ymin b utrs w →
  match_word ymin b utrs st w
  = {| kept := S (kept st);
       found_map := <[word_upper w := true]> (found_map st);
       highlights := highlights st ++ [word_rect w] |}.
Proof.
  unfold hit, below_header, match_word. intros (Hy & Hb & Hin).
  destruct (w_y0 w <? ymin); [done|]. rewrite Hb. simpl.
  by rewrite decide_True.
Qed.

Lemma match_word_miss st w :
  ¬ hit ymin b utrs w → match_word ymin b utrs st w = st.
Proof.
  unfold hit, below_header, match_word. intros Hn.
  destruct (w_y0 w <? ymin); [done|].
  destruct (in_band b w); simpl; [|done].
  case_decide; [|done]. destruct Hn. done.
Qed.

Lemma match_word_changes st w :
  match_word ymin b utrs st w ≠ st ↔ hit ymin b utrs w.
Proof.
  split.
  - intros Hne. destruct (decide (hit ymin b utrs w)) as [|Hn]; [done|].
    by rewrite match_word_miss in Hne.
  - intros Hh. rewrite match_word_hit by done.
    intros Heq. apply (f_equal kept) in Heq. simpl in Heq. lia.
Qed.

Lemma fold_match_word words st :
  fold_left (match_word ymin b utrs) words st
  = {| kept := kept st + length (filter (hit ymin b utrs) words);
       found_map :=
         mark_found (word_upper <$> filter (hit ymin b utrs) words)
                    (found_map st);
       highlights :=
         highlights st ++ (word_rect <$> filter (hit ymin b utrs) words) |}.
Proof.
  revert st. induction words as [|w words IH]; intros st; simpl.
  - destruct st; simpl. f_equal; [lia|by rewrite app_nil_r].
  - rewrite IH. rewrite filter_cons. case_decide as Hw.
    + rewrite match_word_hit by done. simpl.
      f_equal; [lia|by rewrite <-app_assoc].
    + by rewrite match_word_miss.
Qed.

(** The pass over a page keeps the hits, in word order. *)
Lemma match_words_hits fm words :
  match_words ymin b utrs fm words
  = {| kept := length (filter (hit ymin b utrs) words);
       found_map :=
         mark_found (word_upper <$> filter (hit ymin b utrs) words) fm;
       highlights := word_rect <$> filter (hit ymin b utrs) words |}.
Proof. unfold match_words. by rewrite fold_match_word. Qed.

End matching_pass.

Lemma lookup_mark_found ids fm u :
  mark_found ids fm !! u = if decide (u ∈ ids) then Some true else fm !! u.
Proof.
  unfold mark_found. revert fm.
  induction ids as [|v ids IH]; intros fm.
  - case_decide as Hin; [|done]. by apply not_elem_of_nil in Hin.
  - cbn [fold_left]. rewrite IH.
    destruct (decide (u ∈ ids)) as [Hin|Hnin].
    + rewrite decide_True; [done|]. apply elem_of_cons. by right.
    + destruct (decide (u = v)) as [->|Hne].
      * rewrite lookup_insert_eq, decide_True; [done|].
        apply elem_of_cons. by left.
      * rewrite lookup_insert_ne by done.
        rewrite decide_False; [done|].
        rewrite elem_of_cons. naive_solver.
Qed.

(** The highlights and the found flags of a page, through [hit]. *)
Lemma process_page_pass utrs manual_x1 pno page fm :
  fst (process_page utrs manual_x1 pno page fm)
  = match_words (y_min page) (page_band utrs manual_x1 page) utrs fm
                (page_words page).
Proof. done. Qed.

Lemma elem_of_page_highlights utrs manual_x1 pno page fm r :
  r ∈ highlights (fst (process_page utrs manual_x1 pno page fm))
  ↔ ∃ w, w ∈ page_words page
         ∧ hit (y_min page) (page_band utrs manual_x1 page) utrs w
         ∧ r = word_rect w.
Proof.
  rewrite process_page_pass, match_words_hits. simpl.
  rewrite list_elem_of_fmap. setoid_rewrite list_elem_of_filter.
  naive_solver.
Qed.


(** What [highlight_left_column_fast] returns for a document, page by
    page: the band written to the log is the band of the page, and the
    highlights are the rectangles of the hits of the page. *)
Lemma process_pages_logs utrs manual_x1 pno pages st :
  log_band <$> ds_logs (process_pages utrs manual_x1 pno pages st)
  = (log_band <$> ds_logs st) ++ (page_band utrs manual_x1 <$> pages).
Proof.
  revert pno st. induction pages as [|page pages IH]; intros pno st.
  - simpl. by rewrite app_nil_r.
  - cbn [process_pages]. unfold process_page at 1. cbv zeta.
    rewrite IH. cbn [ds_logs]. rewrite fmap_app. cbn [fmap list_fmap log_band].
    rewrite <-app_assoc. done.
Qed.

Lemma highlight_logs pdf utrs manual_x1 :
  log_band <$> ds_logs (highlight_left_column_fast pdf utrs manual_x1)
  = page_band utrs manual_x1 <$> pdf.
Proof. unfold highlight_left_column_fast. by rewrite process_pages_logs. Qed.

Lemma process_pages_out utrs manual_x1 pno pages st :
  ds_out (process_pages utrs manual_x1 pno pages st)
  = ds_out st
    ++ ((λ page,
           word_rect
             <$> filter (hit (y_min page) (page_band utrs manual_x1 page) utrs)
                        (page_words page))
          <$> pages).
Proof.
  revert pno st. induction pages as [|page pages IH]; intros pno st.
  - simpl. by rewrite app_nil_r.
  - cbn [process_pages]. unfold process_page at 1. cbv zeta.
    rewrite IH. cbn [ds_out]. rewrite match_words_hits. cbn [highlights].
    rewrite <-app_assoc. done.
Qed.

Lemma highlight_out pdf utrs manual_x1 :
  ds_out (highlight_left_column_fast pdf utrs manual_x1)
  = (λ page,
       word_rect
         <$> filter (hit (y_min page) (page_band utrs manual_x1 page) utrs)
                    (page_words page))
      <$> pdf.
Proof. unfold highlight_left_column_fast. by rewrite process_pages_out. Qed.

Lemma in_band_edges b w :
  in_band b w = true
  ↔ (x0_band b <=? w_x0 w) = true ∧ (w_x1 w <=? x1_band b) = true.
Proof. unfold in_band. apply andb_true_iff. Qed.





(** A word whose top is exactly the threshold is matched. *)
Example header_threshold_inclusive :
  highlights
    (fst (process_page Samples.utrs None 1
            (Samples.page_of [Samples.word 50 180 110 "Q1435783"]) ∅))
  = [word_rect (Samples.word 50 180 110 "Q1435783")].
Proof. reflexivity. Qed.


(** [str.upper] and [str.lower] beyond ASCII: the sharp s becomes
    ["SS"], the accented letters change case, the signs 215 and 247 stay,
    and [str.strip] removes the separators 28-31 and the no-break
    space. *)
Example upper_lower_latin1 :
  Text.upper ("stra" +:+ String (ascii_of_N 223) "e") = "STRASSE"
  ∧ Text.upper (String (ascii_of_N 233) (String (ascii_of_N 247) "z"))
    = String (ascii_of_N 201) (String (ascii_of_N 247) "Z")
  ∧ Text.lower (String (ascii_of_N 201) (String (ascii_of_N 215) "Z"))
    = String (ascii_of_N 233) (String (ascii_of_N 215) "z")
  ∧ Text.lower (String (ascii_of_N 223) "S") = String (ascii_of_N 223) "s"
  ∧ Text.strip (String (ascii_of_N 28) (String (ascii_of_N 160) "a b"
                +:+ String (ascii_of_N 133) " "))
    = "a b".
Proof. repeat split; reflexivity. Qed.

(** C7. For a word whose text has an upper-case form in the model, the
    word changes the state of the matching pass exactly when its top is
    not less than the threshold, both its edges are inside the band, and
    its text, trimmed and then upper-cased, is equal to a member of the
    identifier set.  With the identifier ["Q1435783"]: a text that only
    shares a prefix with it (["Q143578A"]), a prefix of it, a text that
    contains it, or the identifier with a space or a dot in it never
    matches, wherever the word lies; the identifier itself, in upper or
    lower case and with white space around it, matches whenever the word
    passes the header and band tests, and is marked found under the
    identifier's own spelling. *)
Theorem C7_exact_match_only (ymin : float) (b : Band) (utrs : gset string)
    (st : Pass) (w : Word) :
  upper_known (w_text w) →
  (match_word ymin b utrs st w ≠ st
   ↔ (w_y0 w <? ymin) = false
     ∧ (x0_band b <=? w_x0 w) = true ∧ (w_x1 w <=? x1_band b) = true
     ∧ ∃ u, u ∈ utrs ∧ Text.upper (Text.strip (w_text w)) = u)
  ∧ (∀ x0 y0 x1 y1 text,
       text ∈ ["Q143578A"; "Q143578"; "XQ1435783"; "Q1435 783"; "Q1435783."] →
       match_word ymin b {[ "Q1435783" ]} st
         {| w_x0 := x0; w_y0 := y0; w_x1 := x1; w_y1 := y1;
            w_text := text |} = st)
  ∧ (∀ x0 y0 x1 y1 text,
       text ∈ ["Q1435783"; "q1435783"; "  Q1435783"; " q1435783  "] →
       (y0 <? ymin) = false →
       (x0_band b <=? x0) = true → (x1 <=? x1_band b) = true →
       match_word ymin b {[ "Q1435783" ]} st
         {| w_x0 := x0; w_y0 := y0; w_x1 := x1; w_y1 := y1;
            w_text := text |}
       = {| kept := S (kept st);
            found_map := <[ "Q1435783" := true ]> (found_map st);
            highlights :=
              highlights st
              ++ [ {| r_x0 := x0; r_y0 := y0; r_x1 := x1; r_y1 := y1 |} ] |}).
Proof.
  intros _. split; [|split].
  - rewrite match_word_changes. unfold hit, word_upper, below_header.
    rewrite in_band_edges, negb_true_iff. naive_solver.
  - intros x0 y0 x1 y1 text Htext. apply match_word_miss.
    unfold hit, word_upper. intros (_ & _ & Hin). simpl in Hin.
    apply elem_of_singleton in Hin.
    repeat (apply elem_of_cons in Htext as [->|Htext];
            [vm_compute in Hin; discriminate Hin|]).
    by apply elem_of_nil in Htext.
  - intros x0 y0 x1 y1 text Htext Hy Hl Hr.
    assert (Text.upper (Text.strip text) = "Q1435783") as Hnorm.
    { repeat (apply elem_of_cons in Htext as [->|Htext]; [reflexivity|]).
      by apply elem_of_nil in Htext. }
    rewrite match_word_hit.
    + unfold word_upper, word_rect. simpl. by rewrite Hnorm.
    + split; [unfold below_header; simpl; by rewrite Hy|].
      split; [apply in_band_edges; by split|].
      unfold word_upper. simpl. rewrite Hnorm. by apply elem_of_singleton.
Qed.

(** The padded, lower-case word inside the band [50, 190] below the
    threshold 180 changes the pass; so do the word with a sharp s, whose
    normalized text is ["STRASSE9"], and the word with an accented
    letter. *)
Lemma C7_exact_match_witness :
  match_word 180 Pages.band_50_190 Samples.utrs Pages.fresh_pass
    Pages.padded_word
  ≠ Pages.fresh_pass
  ∧ match_word 180 Pages.band_50_190 Pages.latin_utrs Pages.latin_pass
      Pages.sharp_s_word
    ≠ Pages.latin_pass
  ∧ match_word 180 Pages.band_50_190 Pages.latin_utrs Pages.latin_pass
      Pages.accent_word
    ≠ Pages.latin_pass.
Proof.
  split; [|split].
  - apply (proj1 (C7_exact_match_only 180 Pages.band_50_190 Samples.utrs
                    Pages.fresh_pass Pages.padded_word
                    ltac:(repeat constructor))).
    split; [reflexivity|]. split; [reflexivity|]. split; [reflexivity|].
    exists "Q1435783". split; [apply elem_of_singleton|]; reflexivity.
  - apply (proj1 (C7_exact_match_only 180 Pages.band_50_190 Pages.latin_utrs
                    Pages.latin_pass Pages.sharp_s_word
                    ltac:(repeat constructor))).
    split; [reflexivity|]. split; [reflexivity|]. split; [reflexivity|].
    exists "STRASSE9". split; [|reflexivity].
    apply elem_of_union_l, elem_of_singleton. reflexivity.
  - apply (proj1 (C7_exact_match_only 180 Pages.band_50_190 Pages.latin_utrs
                    Pages.latin_pass Pages.accent_word
                    ltac:(repeat constructor))).
    split; [reflexivity|]. split; [reflexivity|]. split; [reflexivity|].
    exists (String "R" (String (ascii_of_N 201) "F12345")).
    split; [|reflexivity].
    apply elem_of_union_r, elem_of_singleton. reflexivity.
Defined.

(* ================================================================== *)
(** * The found-map *)
(* ================================================================== *)

Section found_map.
Context (utrs : gset string) (manual_x1 : option float).

Lemma page_found_mark page fm :
  page_found utrs manual_x1 page fm
  = mark_found (page_ids utrs manual_x1 page) fm.
Proof.
  unfold page_found. by rewrite process_page_pass, match_words_hits.
Qed.

Lemma lookup_page_found_ids page fm u :
  page_found utrs manual_x1 page fm !! u
  = if decide (u ∈ page_ids utrs manual_x1 page) then Some true else fm !! u.
Proof. by rewrite page_found_mark, lookup_mark_found. Qed.

(** A page only sets flags: a true flag stays true. *)
Lemma page_found_keeps page fm u :
  fm !! u = Some true → page_found utrs manual_x1 page fm !! u = Some true.
Proof. intros H. rewrite lookup_page_found_ids. by case_decide. Qed.

(** The passes of two pages commute. *)
Lemma page_found_comm p q fm :
  page_found utrs manual_x1 p (page_found utrs manual_x1 q fm)
  = page_found utrs manual_x1 q (page_found utrs manual_x1 p fm).
Proof.
  apply map_eq. intros u. rewrite !lookup_page_found_ids.
  by repeat case_decide.
Qed.

Lemma process_pages_found pno pages st :
  ds_found (process_pages utrs manual_x1 pno pages st)
  = pages_found utrs manual_x1 pages (ds_found st).
Proof.
  revert pno st. induction pages as [|page pages IH]; intros pno st; [done|].
  simpl. by rewrite IH.
Qed.

Lemma highlight_found pdf :
  ds_found (highlight_left_column_fast pdf utrs manual_x1)
  = pages_found utrs manual_x1 pdf (gset_to_gmap false utrs).
Proof. apply process_pages_found. Qed.

Lemma pages_found_keeps pages fm u :
  fm !! u = Some true → pages_found utrs manual_x1 pages fm !! u = Some true.
Proof.
  revert fm. induction pages as [|page pages IH]; intros fm H; [done|].
  simpl. apply IH. by apply page_found_keeps.
Qed.

Lemma pages_found_perm pages pages' :
  pages ≡ₚ pages' →
  ∀ fm, pages_found utrs manual_x1 pages fm
        = pages_found utrs manual_x1 pages' fm.
Proof.
  unfold pages_found.
  induction 1 as [|p l l' _ IH|p q l|l l' l'' _ IH1 _ IH2]; intros fm; simpl.
  - done.
  - apply IH.
  - by rewrite page_found_comm.
  - by rewrite IH1.
Qed.

(** The OR over the pages: a flag is true at the end exactly when it was
    true at the start or some page marks it. *)
Lemma lookup_pages_found pages fm u :
  pages_found utrs manual_x1 pages fm !! u = Some true
  ↔ fm !! u = Some true
    ∨ ∃ page, page ∈ pages ∧ u ∈ page_ids utrs manual_x1 page.
Proof.
  revert fm. induction pages as [|page pages IH]; intros fm; simpl.
  - setoid_rewrite elem_of_nil. naive_solver.
  - rewrite IH, lookup_page_found_ids. setoid_rewrite elem_of_cons.
    case_decide; naive_solver.
Qed.

Lemma found_history_from pages fm u :
  fm !! u = Some true →
  Forall (λ m, m !! u = Some true) (found_history utrs manual_x1 pages fm).
Proof.
  revert fm. induction pages as [|page pages IH]; intros fm H; simpl.
  - by repeat constructor.
  - constructor; [done|]. apply IH. by apply page_found_keeps.
Qed.

Lemma found_history_monotone pages fm :
  monotone_found (found_history utrs manual_x1 pages fm).
Proof.
  revert fm. induction pages as [|page pages IH];
    intros fm i j m1 m2 u Hij Hi Hj Hu.
  - destruct i, j; simpl in *; naive_solver.
  - destruct i as [|i].
    + simpl in Hi. injection Hi as <-.
      apply list_elem_of_lookup_2 in Hj.
      pose proof (found_history_from (page :: pages) fm u Hu) as HF.
      rewrite Forall_forall in HF. by apply HF.
    + destruct j as [|j]; [lia|]. simpl in Hi, Hj.
      apply (IH (page_found utrs manual_x1 page fm) i j m1 m2 u);
        [lia|done..].
Qed.

Lemma found_history_last pages fm :
  last (found_history utrs manual_x1 pages fm)
  = Some (pages_found utrs manual_x1 pages fm).
Proof.
  revert fm. induction pages as [|page pages IH]; intros fm; [done|].
  cbn [found_history]. rewrite last_cons, IH. done.
Qed.

End found_map.

(** The found-map of the run [pdf_hit; pdf_miss]: true after the page of
    the first document, false again when the second document starts. *)
Example run_history_two_documents :
  (λ m : gmap string bool, m !! "Q1435783")
    <$> run_history Samples.utrs None [Runs.pdf_hit; Runs.pdf_miss]
  = [Some false; Some true; Some false; Some false].
Proof. reflexivity. Qed.

(** C2, as stated, fails on a run of two documents: the flag of
    ["Q1435783"] is true after the first document and false in the
    second, and the two orders of the documents end with different
    found-maps. *)
Lemma C2_run_found_map_reverts :
  ¬ monotone_found
      (run_history Samples.utrs None [Runs.pdf_hit; Runs.pdf_miss])
  ∧ last (run_history Samples.utrs None [Runs.pdf_hit; Runs.pdf_miss])
    ≠ last (run_history Samples.utrs None [Runs.pdf_miss; Runs.pdf_hit]).
Proof.
  split.
  - intros H.
    pose proof (H 1%nat 2%nat _ _ "Q1435783" ltac:(lia) eq_refl eq_refl eq_refl)
      as Hbad.
    vm_compute in Hbad. discriminate Hbad.
  - intros Heq.
    apply (f_equal (λ o : option (gmap string bool),
                      m ← o; m !! "Q1435783")) in Heq.
    vm_compute in Heq. discriminate Heq.
Qed.

(** C2, amended. Within one document the found-map is a monotonic
    OR-accumulator over the pages: it starts all false, a flag that is
    true after some page is true after every later page of the document,
    a flag is true at the end exactly when some page of the document
    shows the identifier in its band, and the pages of the document in
    any other order give the same final found-map. *)
Theorem C2_found_map_per_document (utrs : gset string)
    (manual_x1 : option float) (pdf pdf' : list Page) :
  pdf ≡ₚ pdf' →
  monotone_found (doc_history utrs manual_x1 pdf)
  ∧ last (doc_history utrs manual_x1 pdf)
    = Some (ds_found (highlight_left_column_fast pdf utrs manual_x1))
  ∧ (∀ u, ds_found (highlight_left_column_fast pdf utrs manual_x1) !! u
          = Some true
          ↔ ∃ page, page ∈ pdf ∧ u ∈ page_ids utrs manual_x1 page)
  ∧ ds_found (highlight_left_column_fast pdf utrs manual_x1)
    = ds_found (highlight_left_column_fast pdf' utrs manual_x1).
Proof.
  intros Hperm. split; [apply found_history_monotone|].
  split; [unfold doc_history; by rewrite found_history_last, highlight_found|].
  split.
  - intros u. rewrite highlight_found, lookup_pages_found.
    rewrite lookup_gset_to_gmap. unfold guard. case_decide; naive_solver.
  - rewrite !highlight_found. by apply pages_found_perm.
Qed.

Lemma C2_found_map_per_document_witness :
  let pdf := pdf_pages Runs.pdf_hit ++ pdf_pages Runs.pdf_miss in
  let pdf' := pdf_pages Runs.pdf_miss ++ pdf_pages Runs.pdf_hit in
  monotone_found (doc_history Samples.utrs None pdf)
  ∧ last (doc_history Samples.utrs None pdf)
    = Some (ds_found (highlight_left_column_fast pdf Samples.utrs None))
  ∧ (∀ u, ds_found (highlight_left_column_fast pdf Samples.utrs None) !! u
          = Some true
          ↔ ∃ page, page ∈ pdf ∧ u ∈ page_ids Samples.utrs None page)
  ∧ ds_found (highlight_left_column_fast pdf Samples.utrs None)
    = ds_found (highlight_left_column_fast pdf' Samples.utrs None).
Proof.
  apply (C2_found_map_per_document Samples.utrs None).
  simpl. apply perm_swap.
Defined.

(* ================================================================== *)
(** * The report *)
(* ================================================================== *)

Section drop_duplicates.
Context {A : Type} `{EqDecision A}.

Lemma elem_of_drop_duplicates_go (seen l : list A) x :
  x ∈ drop_duplicates_go seen l ↔ x ∈ l ∧ x ∉ seen.
Proof.
  revert seen. induction l as [|y l IH]; intros seen; simpl.
  - rewrite elem_of_nil. naive_solver.
  - case_decide as Hy.
    + rewrite IH, elem_of_cons. naive_solver.
    + rewrite !elem_of_cons, IH, elem_of_cons.
      destruct (decide (x = y)); naive_solver.
Qed.

Lemma elem_of_drop_duplicates (l : list A) x : x ∈ drop_duplicates l ↔ x ∈ l.
Proof.
  unfold drop_duplicates. rewrite elem_of_drop_duplicates_go.
  rewrite elem_of_nil. naive_solver.
Qed.

Lemma NoDup_drop_duplicates_go (seen l : list A) :
  NoDup (drop_duplicates_go seen l).
Proof.
  revert seen. induction l as [|y l IH]; intros seen; simpl.
  - constructor.
  - case_decide; [apply IH|]. constructor; [|apply IH].
    rewrite elem_of_drop_duplicates_go, elem_of_cons. naive_solver.
Qed.

Lemma NoDup_drop_duplicates (l : list A) : NoDup (drop_duplicates l).
Proof. apply NoDup_drop_duplicates_go. Qed.

Lemma drop_duplicates_go_id (seen l : list A) :
  NoDup l → (∀ x, x ∈ l → x ∉ seen) → drop_duplicates_go seen l = l.
Proof.
  intros Hnd. revert seen.
  induction Hnd as [|y l Hy _ IH]; intros seen Hseen; simpl; [done|].
  rewrite decide_False by (apply Hseen, elem_of_cons; by left).
  f_equal. apply IH. intros x Hx. rewrite elem_of_cons.
  intros [->|Hs]; [done|]. apply (Hseen x); [|done].
  apply elem_of_cons. by right.
Qed.

Lemma drop_duplicates_id (l : list A) : NoDup l → drop_duplicates l = l.
Proof.
  intros. apply drop_duplicates_go_id; [done|].
  intros x _. apply not_elem_of_nil.
Qed.

End drop_duplicates.

Section report.
Context (utrs : gset string) (manual_x1 : option float).

Lemma sorted_utrs_perm : sorted_utrs utrs ≡ₚ elements utrs.
Proof. apply merge_sort_Permutation. Qed.

Lemma elem_of_sorted_utrs u : u ∈ sorted_utrs utrs ↔ u ∈ utrs.
Proof. by rewrite sorted_utrs_perm, elem_of_elements. Qed.

Lemma NoDup_sorted_utrs : NoDup (sorted_utrs utrs).
Proof. rewrite sorted_utrs_perm. apply NoDup_elements. Qed.

Lemma sorted_utrs_sorted : StronglySorted String.le (sorted_utrs utrs).
Proof. apply StronglySorted_merge_sort; apply _. Qed.

Lemma fst_rows_of fm : (rows_of utrs fm).*1 = sorted_utrs utrs.
Proof.
  unfold rows_of. rewrite <-list_fmap_compose.
  induction (sorted_utrs utrs); simpl; [done|]. by f_equal.
Qed.

Lemma NoDup_rows_of fm : NoDup (rows_of utrs fm).
Proof.
  apply (NoDup_fmap_1 fst). rewrite fst_rows_of. apply NoDup_sorted_utrs.
Qed.

Lemma csv_rows_run_pdfs pdf_files st :
  csv_rows (fold_left (run_pdf utrs manual_x1) pdf_files st)
  = csv_rows st
    ++ (pdf_file ← pdf_files;
        rows_of utrs
          (ds_found (highlight_left_column_fast (pdf_pages pdf_file)
                       utrs manual_x1))).
Proof.
  revert st. induction pdf_files as [|f fs IH]; intros st; simpl.
  - by rewrite app_nil_r.
  - rewrite IH. simpl. by rewrite <-app_assoc.
Qed.

(** X7. With one document the report is one row for each identifier, in
    sorted order of the identifiers and without repetition, each with the
    flag the document gave it. *)
Lemma report_single_document pdf_file :
  let fm := ds_found (highlight_left_column_fast (pdf_pages pdf_file)
                        utrs manual_x1) in
  report_of utrs manual_x1 [pdf_file] = rows_of utrs fm
  ∧ (report_of utrs manual_x1 [pdf_file]).*1 = sorted_utrs utrs
  ∧ StronglySorted String.le (sorted_utrs utrs)
  ∧ NoDup (sorted_utrs utrs)
  ∧ ∀ u, u ∈ sorted_utrs utrs ↔ u ∈ utrs.
Proof.
  intros fm.
  assert (report_of utrs manual_x1 [pdf_file] = rows_of utrs fm) as Hr.
  { unfold report_of, run_pdfs. rewrite csv_rows_run_pdfs. simpl.
    rewrite app_nil_r. apply drop_duplicates_id, NoDup_rows_of. }
  split; [done|]. rewrite Hr, fst_rows_of.
  split; [done|]. split; [apply sorted_utrs_sorted|].
  split; [apply NoDup_sorted_utrs|apply elem_of_sorted_utrs].
Qed.

(** With any number of documents every identifier has a row, and no two
    rows of the report are equal: an identifier has one or two rows. *)
Lemma report_rows pdf_file pdf_files u :
  u ∈ utrs →
  NoDup (report_of utrs manual_x1 (pdf_file :: pdf_files))
  ∧ ∃ found, (u, found) ∈ report_of utrs manual_x1 (pdf_file :: pdf_files).
Proof.
  intros Hu. split; [apply NoDup_drop_duplicates|].
  exists (default false
            (ds_found (highlight_left_column_fast (pdf_pages pdf_file)
                         utrs manual_x1) !! u)).
  unfold report_of, run_pdfs. rewrite elem_of_drop_duplicates.
  rewrite csv_rows_run_pdfs. simpl. apply elem_of_app. left.
  unfold rows_of. apply list_elem_of_fmap. eexists. split; [done|].
  by apply elem_of_sorted_utrs.
Qed.

End report.

(** Two identifiers, the first document shows one and the second the
    other: four rows, not in identifier order. *)
Example report_two_identifiers :
  report_of {[ "Q1435783"; "AB12345" ]} None
    [ Runs.pdf_hit;
      {| pdf_name := "c.pdf";
         pdf_pages :=
           [ Samples.page_of [ Samples.word 50 200 110 "AB12345" ] ] |} ]
  = [ ("AB12345", false); ("Q1435783", true);
      ("AB12345", true); ("Q1435783", false) ].
Proof. reflexivity. Qed.

(** C1, the failing run. One identifier, two documents: the first shows
    it in its band, the second does not.  The report has two rows for
    the identifier, one found and one not found. *)
Theorem C1_report_two_documents :
  load_utrs_from_excel [Books.book] = inr Samples.utrs
  ∧ ∃ r, start [Books.book] [Runs.pdf_hit; Runs.pdf_miss] false 220 = inr r
         ∧ report r = [ ("Q1435783", true); ("Q1435783", false) ].
Proof. split; [reflexivity|]. eexists. split; reflexivity. Qed.

(* ================================================================== *)
(** * Loading the identifiers *)
(* ================================================================== *)

Section loading.

(** A column adds the tokens of its cells to the set. *)
Lemma add_tokens_union (tokens : list string) (utrs : gset string) :
  fold_left (λ utrs token, utrs ∪ {[Text.upper (Text.strip token)]})
            tokens utrs
  = utrs ∪ list_to_set ((λ token, Text.upper (Text.strip token)) <$> tokens).
Proof.
  revert utrs. induction tokens as [|t tokens IH]; intros utrs; simpl.
  - set_solver.
  - rewrite IH. set_solver.
Qed.

Lemma add_column_tokens (vals : list cell) (utrs : gset string) :
  add_column vals utrs = utrs ∪ list_to_set (vals ≫= cell_tokens).
Proof.
  unfold add_column, dropna. revert utrs.
  induction vals as [|val vals IH]; intros utrs.
  - simpl. set_solver.
  - rewrite filter_cons. destruct val as [text|].
    + rewrite decide_True by done. cbn [fold_left].
      rewrite IH, add_tokens_union. cbn [mbind list_bind].
      fold (cell_tokens (Some text)). fold (vals ≫= cell_tokens).
      rewrite list_to_set_app_L. set_solver.
    + rewrite decide_False by (by intros [? ?]).
      rewrite IH. cbn [mbind list_bind]. simpl. done.
Qed.

Lemma first_column_app cs1 cs2 :
  first_column (cs1 ++ cs2)
  = match first_column cs1 with
    | Some vals => Some vals
    | None => first_column cs2
    end.
Proof.
  induction cs1 as [|c cs1 IH]; [done|]. simpl.
  by destruct (utr_column c).
Qed.

Lemma first_column_split pre c post vals :
  Forall (λ c, utr_column c = None) pre →
  utr_column c = Some vals →
  first_column (pre ++ c :: post) = Some vals.
Proof.
  intros Hpre Hc. induction Hpre as [|c' pre Hc' _ IH]; simpl.
  - by rewrite Hc.
  - by rewrite Hc'.
Qed.

Lemma first_column_none cs :
  Forall (λ c, utr_column c = None) cs → first_column cs = None.
Proof. induction 1 as [|c cs Hc _ IH]; simpl; [done|]. by rewrite Hc. Qed.

Lemma scan_headers_first sh hdrs utrs :
  scan_headers sh hdrs utrs
  = (λ vals, add_column vals utrs)
      <$> first_column ((λ hdr, (sh, hdr)) <$> hdrs).
Proof.
  induction hdrs as [|hdr hdrs IH]; [done|].
  simpl. unfold utr_column. simpl.
  destruct (read_excel sh hdr) as [df|]; simpl; [|done].
  by destruct (find_utr_col (df_columns df)).
Qed.

Lemma scan_sheets_first sheets utrs :
  scan_sheets sheets utrs
  = (λ vals, add_column vals utrs) <$> first_column (scan_order sheets).
Proof.
  induction sheets as [|sh sheets IH]; [done|].
  cbn [scan_sheets]. rewrite scan_headers_first, IH.
  unfold scan_order. cbn [mbind list_bind]. fold (scan_order sheets).
  rewrite first_column_app.
  by destruct (first_column ((λ hdr, (sh, hdr)) <$> seq 0 5)).
Qed.

Lemma load_files_app files1 files2 utrs :
  load_files (files1 ++ files2) utrs
  = match load_files files1 utrs with
    | inl why => inl why
    | inr utrs' => load_files files2 utrs'
    end.
Proof.
  revert utrs. induction files1 as [|f files1 IH]; intros utrs; [done|].
  simpl. destruct (xl_sheets f) as [sheets|]; [|done].
  destruct (scan_sheets sheets utrs); [apply IH|done].
Qed.

(** A run whose identifiers cannot be loaded processes nothing. *)
Lemma start_stops excel_files pdf_files manual_band manual_x1 why :
  load_utrs_from_excel excel_files = inl why →
  ∃ why', start excel_files pdf_files manual_band manual_x1 = inl why'.
Proof.
  intros H. unfold start. destruct excel_files, pdf_files; eauto.
  rewrite H. eauto.
Qed.

End loading.

Example scan_order_two_sheets :
  (λ c, (sheet_name c.1, c.2)) <$> scan_order [Books2.cover; Books2.data]
  = [ ("Cover", 0); ("Cover", 1); ("Cover", 2); ("Cover", 3); ("Cover", 4);
      ("Data", 0); ("Data", 1); ("Data", 2); ("Data", 3); ("Data", 4) ]%nat.
Proof. reflexivity. Qed.

(** C8. For a source [f] that opens with the sheets [sheets]: the sheet
    and header-row combinations are visited sheet by sheet with header
    rows 0 to 4, and when [(sh, hdr)] is the first of them with a
    "utr"-like label, the source adds the cells of that column and nothing
    of a later combination, and loading goes on with the next source;
    when no combination has such a label, loading stops at [f] with "no
    UTR-like column", so that whatever sources come before and after [f],
    no identifier set is returned and [start] processes no document. *)
Theorem C8_first_utr_column_or_abort (f : ExcelFile) (sheets : list Sheet)
    (before after : list ExcelFile) :
  xl_sheets f = Some sheets →
  (∀ pre sh hdr post vals utrs,
     scan_order sheets = pre ++ (sh, hdr) :: post →
     Forall (λ c, utr_column c = None) pre →
     utr_column (sh, hdr) = Some vals →
     load_files (f :: after) utrs = load_files after (add_column vals utrs))
  ∧ (Forall (λ c, utr_column c = None) (scan_order sheets) →
     (∀ utrs, load_files (f :: after) utrs = inl (NoUtrColumn (xl_name f)))
     ∧ (∃ why, load_utrs_from_excel (before ++ f :: after) = inl why)
     ∧ ∀ pdf_files manual_band manual_x1,
         ∃ why, start (before ++ f :: after) pdf_files manual_band manual_x1
                = inl why).
Proof.
  intros Hf. split.
  - intros pre sh hdr post vals utrs Horder Hpre Hcol. simpl.
    rewrite Hf, scan_sheets_first, Horder.
    by rewrite (first_column_split pre (sh, hdr) post vals).
  - intros Hnone.
    assert (∀ utrs, load_files (f :: after) utrs
                    = inl (NoUtrColumn (xl_name f))) as Hstop.
    { intros utrs. simpl.
      by rewrite Hf, scan_sheets_first, first_column_none. }
    assert (∃ why, load_utrs_from_excel (before ++ f :: after) = inl why)
      as [why Hwhy].
    { unfold load_utrs_from_excel. rewrite load_files_app.
      destruct (load_files before ∅); [eauto|]. rewrite Hstop. eauto. }
    split; [done|]. split; [eauto|].
    intros pdf_files manual_band manual_x1. by eapply start_stops.
Qed.

(** In [good.xlsx] the first label is found on the second sheet with
    header row 2: its column is loaded and the column seen with header
    row 3 is not.  [bad.xlsx] has no such label, and a run over
    [good.xlsx], [bad.xlsx], [good.xlsx] stops. *)
Lemma C8_first_utr_column_witness :
  load_utrs_from_excel [Books2.good] = inr {[ "Q1435783" ]}
  ∧ load_utrs_from_excel [Books2.bad] = inl (NoUtrColumn "bad.xlsx")
  ∧ ∃ why, start [Books2.good; Books2.bad; Books2.good]
                 [Runs.pdf_hit] false 220 = inl why.
Proof.
  split; [|split].
  - unfold load_utrs_from_excel.
    rewrite (proj1 (C8_first_utr_column_or_abort Books2.good
                      [Books2.cover; Books2.data] [] [] eq_refl)
               (((λ hdr, (Books2.cover, hdr)) <$> seq 0 5)
                ++ [(Books2.data, 0%nat); (Books2.data, 1%nat)])
               Books2.data 2%nat
               [(Books2.data, 3%nat); (Books2.data, 4%nat)]
               [Some "ref q1435783 ok"; None] ∅);
      [reflexivity|reflexivity| |reflexivity].
    repeat constructor.
  - apply (proj2 (C8_first_utr_column_or_abort Books2.bad
                    [Books2.cover] [] [] eq_refl)).
    repeat constructor.
  - apply (proj2 (C8_first_utr_column_or_abort Books2.bad
                    [Books2.cover] [Books2.good] [Books2.good] eq_refl)).
    repeat constructor.
Defined.

(* ================================================================== *)
(** * Token extraction *)
(* ================================================================== *)

Section runs.
Context (keep : ascii → bool).

Lemma runs_go_rejected cur c l :
  keep c = false →
  Text.runs_go keep cur (c :: l)
  = match cur with [] => [] | _ => [rev cur] end ++ Text.runs keep l.
Proof. intros H. simpl. rewrite H. by destruct cur. Qed.

(** Rejected characters at the end add no run. *)
Lemma runs_go_app_rejected cur l post :
  Forall (λ c, keep c = false) post →
  Text.runs_go keep cur (l ++ post) = Text.runs_go keep cur l.
Proof.
  intros Hpost. revert cur. induction l as [|c l IH]; intros cur; simpl.
  - revert cur. induction Hpost as [|d post Hd _ IH]; intros cur; [done|].
    rewrite runs_go_rejected by done. unfold Text.runs. rewrite IH.
    simpl. by rewrite app_nil_r.
  - destruct (keep c); [apply IH|]. destruct cur; by rewrite IH.
Qed.

(** Rejected characters at the start add no run. *)
Lemma runs_rejected_app pre l :
  Forall (λ c, keep c = false) pre →
  Text.runs keep (pre ++ l) = Text.runs keep l.
Proof.
  unfold Text.runs. induction 1 as [|c pre Hc _ IH]; [done|].
  simpl. by rewrite Hc.
Qed.

(** A change of rejected characters into rejected characters changes no
    run. *)
Lemma runs_go_map (f : ascii → ascii) cur l :
  (∀ c, keep (f c) = keep c) →
  (∀ c, keep c = true → f c = c) →
  Text.runs_go keep cur (map f l) = Text.runs_go keep cur l.
Proof.
  intros Hk Hf. revert cur. induction l as [|c l IH]; intros cur; [done|].
  simpl. rewrite Hk. destruct (keep c) eqn:Hc.
  - rewrite Hf by done. apply IH.
  - destruct cur; by rewrite IH.
Qed.

(** Every run is made of kept characters. *)
Lemma runs_go_kept cur l :
  Forall (λ c, keep c = true) cur →
  Forall (Forall (λ c, keep c = true)) (Text.runs_go keep cur l).
Proof.
  revert cur. induction l as [|c l IH]; intros cur Hcur; simpl.
  - destruct cur; [constructor|]. repeat constructor. by apply Forall_rev.
  - destruct (keep c) eqn:Hc.
    + apply IH. by constructor.
    + destruct cur; [by apply IH|].
      constructor; [by apply Forall_rev|]. by apply IH.
Qed.

End runs.

Section strip.

Lemma space_not_alnum c : Text.is_space c = true → Text.is_alnum c = false.
Proof. destruct c as [[] [] [] [] [] [] [] []]; vm_compute; congruence. Qed.

Lemma lstrip_chars_split l :
  ∃ pre, l = pre ++ Text.lstrip_chars l
         ∧ Forall (λ c, Text.is_space c = true) pre.
Proof.
  induction l as [|c l (pre & IH & Hpre)].
  - by exists [].
  - simpl. destruct (Text.is_space c) eqn:Hc.
    + exists (c :: pre). split; [by rewrite IH at 1|by constructor].
    + by exists [].
Qed.

(** [strip] removes white space at both ends and nothing else. *)
Lemma strip_chars_split l :
  ∃ pre post,
    l = pre ++ Text.strip_chars l ++ post
    ∧ Forall (λ c, Text.is_space c = true) pre
    ∧ Forall (λ c, Text.is_space c = true) post.
Proof.
  destruct (lstrip_chars_split l) as (pre & Hl & Hpre).
  destruct (lstrip_chars_split (rev (Text.lstrip_chars l)))
    as (post & Hr & Hpost).
  exists pre, (rev post). repeat split; [|done|by apply Forall_rev].
  unfold Text.strip_chars. rewrite <-rev_app_distr, <-Hr, rev_involutive.
  done.
Qed.

Lemma lstrip_chars_id l :
  Forall (λ c, Text.is_space c = false) l → Text.lstrip_chars l = l.
Proof. destruct 1 as [|c l Hc _]; [done|]. simpl. by rewrite Hc. Qed.

Lemma strip_chars_id l :
  Forall (λ c, Text.is_space c = false) l → Text.strip_chars l = l.
Proof.
  intros H. unfold Text.strip_chars.
  rewrite (lstrip_chars_id l), lstrip_chars_id by (try apply Forall_rev; done).
  apply rev_involutive.
Qed.

Lemma chars_str l : Text.chars (Text.str l) = l.
Proof. apply list_ascii_of_string_of_list_ascii. Qed.

Lemma str_chars s : Text.str (Text.chars s) = s.
Proof. apply string_of_list_ascii_of_string. Qed.

(** Trimming a text changes none of its alphanumeric runs. *)
Lemma runs_strip_chars l :
  Text.runs Text.is_alnum (Text.strip_chars l) = Text.runs Text.is_alnum l.
Proof.
  destruct (strip_chars_split l) as (pre & post & Hl & Hpre & Hpost).
  rewrite Hl at 2.
  rewrite runs_rejected_app
    by (eapply Forall_impl; [done|apply space_not_alnum]).
  unfold Text.runs. rewrite runs_go_app_rejected; [done|].
  eapply Forall_impl; [done|apply space_not_alnum].
Qed.

(** Replacing non-breaking spaces changes none of the runs either. *)
Lemma runs_replace_nbsp l :
  Text.runs Text.is_alnum (Text.replace_nbsp_chars l)
  = Text.runs Text.is_alnum l.
Proof.
  unfold Text.runs, Text.replace_nbsp_chars. apply runs_go_map.
  - intros c. case_decide as Hc; [|done]. by rewrite Hc.
  - intros c Hc. case_decide as Hn; [|done]. by rewrite Hn in Hc.
Qed.

(** A run of alphanumeric characters is its own trimmed text. *)
Lemma strip_alnum r :
  Forall (λ c, Text.is_alnum c = true) r → Text.strip (Text.str r) = Text.str r.
Proof.
  intros H. unfold Text.strip. rewrite chars_str, strip_chars_id; [done|].
  eapply Forall_impl; [done|]. intros c Hc. simpl in Hc.
  destruct (Text.is_space c) eqn:Hs; [|done].
  by rewrite (space_not_alnum c Hs) in Hc.
Qed.

End strip.

Section findall.

Lemma alnum_prefix_rest l :
  drop (length (alnum_prefix l)) l = []
  ∨ ∃ d rest, drop (length (alnum_prefix l)) l = d :: rest
              ∧ Text.is_alnum d = false.
Proof.
  induction l as [|c l IH]; [by left|]. simpl.
  destruct (Text.is_alnum c) eqn:Hc; [apply IH|].
  right. by exists c, l.
Qed.

Lemma runs_go_alnum_prefix cur l :
  Text.runs_go Text.is_alnum cur l
  = Text.runs_go Text.is_alnum (rev (alnum_prefix l) ++ cur)
      (drop (length (alnum_prefix l)) l).
Proof.
  revert cur. induction l as [|c l IH]; intros cur; [done|].
  simpl. destruct (Text.is_alnum c) eqn:Hc; simpl.
  - rewrite IH, <-app_assoc. done.
  - by rewrite Hc.
Qed.

(** A text that starts with an alphanumeric character has its longest
    alphanumeric prefix as first run. *)
Lemma runs_alnum_prefix l :
  alnum_prefix l ≠ [] →
  Text.runs Text.is_alnum l
  = alnum_prefix l
    :: Text.runs Text.is_alnum (drop (length (alnum_prefix l)) l).
Proof.
  intros Hp. unfold Text.runs at 1. rewrite runs_go_alnum_prefix.
  rewrite app_nil_r.
  assert (rev (alnum_prefix l) ≠ []) as Hr.
  { intros H. apply Hp. by rewrite <-(rev_involutive (alnum_prefix l)), H. }
  destruct (alnum_prefix_rest l) as [->|(d & rest & -> & Hd)].
  - simpl. destruct (rev (alnum_prefix l)) eqn:E; [done|].
    by rewrite <-E, rev_involutive.
  - rewrite runs_go_rejected by done.
    unfold Text.runs at 2. simpl. rewrite Hd.
    destruct (rev (alnum_prefix l)) eqn:E; [done|].
    by rewrite <-E, rev_involutive.
Qed.

(** The long runs of a text: those of its longest alphanumeric prefix,
    when it has six characters, and those of what follows it. *)
Lemma long_runs_prefix l :
  filter (λ r, 6 ≤ length r) (Text.runs Text.is_alnum l)
  = (if decide (6 ≤ length (alnum_prefix l)) then [alnum_prefix l] else [])
    ++ filter (λ r, 6 ≤ length r)
         (Text.runs Text.is_alnum (drop (length (alnum_prefix l)) l)).
Proof.
  destruct (alnum_prefix l) as [|c p] eqn:E.
  - case_decide as H6; [simpl in H6; lia|]. by rewrite drop_0.
  - rewrite runs_alnum_prefix by (by rewrite E). rewrite E.
    rewrite filter_cons. by case_decide.
Qed.

(** [findall] returns the alphanumeric runs of six characters or more. *)
Lemma findall_chars_runs l :
  findall_chars l
  = filter (λ r, 6 ≤ length r) (Text.runs Text.is_alnum l).
Proof.
  funelim (findall_chars l).
  - done.
  - rewrite (long_runs_prefix (c :: l')), decide_True by done.
    cbn [app]. f_equal.
    match goal with IH : findall_chars _ = filter _ _ |- _ => apply IH end.
  - rewrite (long_runs_prefix (c :: l')), decide_False by done.
    cbn [app].
    match goal with IH : findall_chars _ = filter _ _ |- _ => rewrite IH end.
    match goal with Hshort : ¬ _ |- _ => pose proof Hshort as Hn end.
    clear -Hn. revert Hn.
    simpl. destruct (Text.is_alnum c) eqn:Hc; intros Hn.
    + cbn [length drop]. rewrite (long_runs_prefix l').
      rewrite decide_False; [done|]. simpl in Hn. lia.
    + cbn [length drop]. unfold Text.runs. simpl. by rewrite Hc.
Qed.

End findall.

Section reference_tokenizer.

Lemma spec_alnum_is_alnum c : spec_alnum c = Text.is_alnum c.
Proof. destruct c as [[] [] [] [] [] [] [] []]; reflexivity. Qed.

Lemma spec_upper_alnum c :
  Text.is_alnum c = true → spec_upper c = Text.upper_char c.
Proof. destruct c as [[] [] [] [] [] [] [] []]; vm_compute; congruence. Qed.

Lemma spec_unbreak_replace l :
  map spec_unbreak l = Text.replace_nbsp_chars l.
Proof.
  unfold Text.replace_nbsp_chars. apply map_ext. intros c.
  destruct c as [[] [] [] [] [] [] [] []]; reflexivity.
Qed.

Lemma runs_go_ext keep keep' cur l :
  (∀ c, keep c = keep' c) →
  Text.runs_go keep cur l = Text.runs_go keep' cur l.
Proof.
  intros H. revert cur. induction l as [|c l IH]; intros cur; [done|].
  simpl. rewrite H. destruct (keep' c); [apply IH|].
  destruct cur; by rewrite IH.
Qed.

Lemma spec_runs l : Text.runs spec_alnum l = Text.runs Text.is_alnum l.
Proof. apply runs_go_ext, spec_alnum_is_alnum. Qed.

Lemma upper_run r :
  Forall (λ c, Text.is_alnum c = true) r →
  Text.upper (Text.str r) = string_of_list_ascii (map spec_upper r).
Proof.
  intros Hr. unfold Text.upper, Text.str, Text.chars.
  rewrite list_ascii_of_string_of_list_ascii. f_equal.
  induction Hr as [|c r Hc _ IH]; [done|].
  cbn [mbind list_bind map]. fold (r ≫= Text.upper_chars). rewrite IH.
  rewrite (spec_upper_alnum c Hc). clear IH.
  destruct c as [[] [] [] [] [] [] [] []]; vm_compute in Hc;
    first [discriminate Hc | reflexivity].
Qed.

End reference_tokenizer.

(** C9. The tokens of a cell are a function of its text: they are the
    maximal runs of six or more ASCII letters and digits of the text, in
    order, each with its letters turned to upper case
    ([extract_utrs_from_cell] returns the runs, the loader upper-cases
    them); and for every text, with or without non-breaking spaces, they
    are the tokens of the reference tokenizer, which replaces
    non-breaking spaces by regular spaces first.  For instance the cell
    [" ref:q1435783<nbsp>ab12cd x1y2z Zz99887766 "] gives ["Q1435783"],
    ["AB12CD"] and ["ZZ99887766"]. *)
Theorem C9_tokens_refine_reference (text : string) :
  extract_utrs_from_cell (Some text)
  = string_of_list_ascii
      <$> filter (λ r, 6 ≤ length r)
            (Text.runs spec_alnum (list_ascii_of_string text))
  ∧ cell_tokens (Some text)
    = (λ r, string_of_list_ascii (map spec_upper r))
        <$> filter (λ r, 6 ≤ length r)
              (Text.runs spec_alnum (list_ascii_of_string text))
  ∧ cell_tokens (Some text) = spec_tokens text
  ∧ cell_tokens
      (Some (" ref:q1435783" +:+ String (ascii_of_N 160) "ab12cd x1y2z"
             +:+ " Zz99887766 "))
    = ["Q1435783"; "AB12CD"; "ZZ99887766"].
Proof.
  assert (extract_utrs_from_cell (Some text)
          = Text.str <$> filter (λ r, 6 ≤ length r)
                           (Text.runs Text.is_alnum (Text.chars text))) as He.
  { unfold extract_utrs_from_cell, UTR_PATTERN_findall, Text.strip.
    by rewrite chars_str, findall_chars_runs, runs_strip_chars. }
  assert (cell_tokens (Some text)
          = (λ r, string_of_list_ascii (map spec_upper r))
              <$> filter (λ r, 6 ≤ length r)
                    (Text.runs Text.is_alnum (Text.chars text))) as Hc.
  { unfold cell_tokens. rewrite He, <-!list_fmap_compose.
    apply Forall_fmap_ext. apply Forall_forall. intros r Hr. simpl.
    apply list_elem_of_filter in Hr as [_ Hr].
    pose proof (runs_go_kept Text.is_alnum [] (Text.chars text)
                  ltac:(constructor)) as HF.
    rewrite Forall_forall in HF. specialize (HF r Hr).
    rewrite strip_alnum by done. by apply upper_run. }
  split; [by rewrite spec_runs|]. split; [by rewrite spec_runs|].
  split; [|reflexivity].
  rewrite Hc. unfold spec_tokens.
  by rewrite spec_unbreak_replace, spec_runs, runs_replace_nbsp.
Qed.

(** The reference tokenizer gives ["Q1435783"] and ["ZZ9988X7"] for the
    cell ["Utr q1435783/zz9988x7 a1b2c"], and so does the code. *)
Lemma C9_tokens_witness :
  spec_tokens "Utr q1435783/zz9988x7 a1b2c" = ["Q1435783"; "ZZ9988X7"]
  ∧ cell_tokens (Some "Utr q1435783/zz9988x7 a1b2c")
    = ["Q1435783"; "ZZ9988X7"].
Proof.
  pose proof (C9_tokens_refine_reference "Utr q1435783/zz9988x7 a1b2c")
    as (_ & _ & Href & _).
  split; [reflexivity|]. rewrite Href. reflexivity.
Defined.

Example tokens_nbsp :
  cell_tokens (Some (" q1435783" +:+ Text.str [Text.nbsp] +:+ "ab12cd "))
  = ["Q1435783"; "AB12CD"].
Proof. reflexivity. Qed.

(* ================================================================== *)
(** * Further properties of the highlighter *)
(* ================================================================== *)

Section highlighter_facts.
Context (utrs : gset string) (manual_x1 : option float).

Lemma page_ids_in_utrs page u :
  u ∈ page_ids utrs manual_x1 page → u ∈ utrs.
Proof.
  unfold page_ids. rewrite list_elem_of_fmap.
  intros (w & -> & Hw). apply list_elem_of_filter in Hw as [Hh _].
  apply Hh.
Qed.

Lemma page_ids_hit page u :
  u ∈ page_ids utrs manual_x1 page
  ↔ ∃ w, w ∈ page_words page
         ∧ hit (y_min page) (page_band utrs manual_x1 page) utrs w
         ∧ word_upper w = u.
Proof.
  unfold page_ids. rewrite list_elem_of_fmap.
  setoid_rewrite list_elem_of_filter. naive_solver.
Qed.

Lemma pages_found_keys pages fm :
  (∀ u, is_Some (fm !! u) ↔ u ∈ utrs) →
  ∀ u, is_Some (pages_found utrs manual_x1 pages fm !! u) ↔ u ∈ utrs.
Proof.
  revert fm. induction pages as [|page pages IH]; intros fm Hfm; [done|].
  simpl. apply IH. intros u. rewrite lookup_page_found_ids.
  case_decide as Hin; [|apply Hfm].
  split; [intros _; by eapply page_ids_in_utrs|by eauto].
Qed.

Lemma pages_found_app pages1 pages2 fm :
  pages_found utrs manual_x1 (pages1 ++ pages2) fm
  = pages_found utrs manual_x1 pages2 (pages_found utrs manual_x1 pages1 fm).
Proof. unfold pages_found. apply fold_left_app. Qed.

Lemma page_found_no_words page fm :
  page_words page = [] → page_found utrs manual_x1 page fm = fm.
Proof.
  intros Hw. rewrite page_found_mark. unfold page_ids. by rewrite Hw.
Qed.

Lemma process_pages_log_lines pno pages st :
  ds_logs (process_pages utrs manual_x1 pno pages st)
  = ds_logs st
    ++ imap (λ i page,
               {| log_pno := pno + i;
                  log_words := length (page_words page);
                  log_hits :=
                    length (filter (hit (y_min page)
                                      (page_band utrs manual_x1 page) utrs)
                                   (page_words page));
                  log_band := page_band utrs manual_x1 page |}) pages.
Proof.
  revert pno st. induction pages as [|page pages IH]; intros pno st.
  - simpl. by rewrite app_nil_r.
  - cbn [process_pages]. unfold process_page at 1. cbv zeta.
    rewrite IH. cbn [ds_logs imap]. rewrite match_words_hits. cbn [kept].
    rewrite <-app_assoc. cbn [app]. rewrite Nat.add_0_r.
    do 2 f_equal. apply imap_ext. intros i p _. simpl.
    f_equal. lia.
Qed.

End highlighter_facts.

(** X1. The keys of the [found_map] that [highlight_left_column_fast]
    returns are exactly the identifiers it was given: the matching pass
    writes only keys that are in [utrs_upper], so no key is added and
    none is lost, and the [found_map.get(u, False)] of the report never
    falls back to its default for a loaded identifier. *)
Theorem found_map_keys_are_the_identifiers (pdf : list Page)
    (utrs : gset string) (manual_x1 : option float) :
  dom (ds_found (highlight_left_column_fast pdf utrs manual_x1)) = utrs.
Proof.
  apply set_eq. intros u. rewrite elem_of_dom, highlight_found.
  apply pages_found_keys. intros v. rewrite lookup_gset_to_gmap.
  unfold guard. case_decide; [by eauto|]. split; [by intros [? ?]|done].
Qed.

(** X2. A page without words, be it that [get_text] raised or that it
    returned nothing, is passed over: it gets an empty list of highlights,
    and the found-map of the document is the one of the document without
    that page. *)
Theorem page_without_words_is_passed_over (utrs : gset string)
    (manual_x1 : option float) (before after : list Page) (page : Page) :
  page_words page = [] →
  ds_out (highlight_left_column_fast (before ++ page :: after) utrs manual_x1)
  = ds_out (highlight_left_column_fast before utrs manual_x1)
    ++ [] :: ds_out (highlight_left_column_fast after utrs manual_x1)
  ∧ ds_found (highlight_left_column_fast (before ++ page :: after)
                utrs manual_x1)
    = ds_found (highlight_left_column_fast (before ++ after) utrs manual_x1).
Proof.
  intros Hw. split.
  - rewrite !highlight_out, fmap_app, fmap_cons. by rewrite Hw.
  - rewrite !highlight_found, !pages_found_app. simpl.
    by rewrite page_found_no_words.
Qed.

Lemma page_without_words_witness :
  let unreadable :=
    {| rect_x0 := 0; rect_x1 := 600; rect_height := 1000;
       get_text_words := None |} in
  ds_out (highlight_left_column_fast
            (pdf_pages Runs.pdf_hit ++ unreadable :: pdf_pages Runs.pdf_miss)
            Samples.utrs None)
  = ds_out (highlight_left_column_fast (pdf_pages Runs.pdf_hit)
              Samples.utrs None)
    ++ [] :: ds_out (highlight_left_column_fast (pdf_pages Runs.pdf_miss)
                       Samples.utrs None)
  ∧ ds_found (highlight_left_column_fast
                (pdf_pages Runs.pdf_hit ++ unreadable :: pdf_pages Runs.pdf_miss)
                Samples.utrs None)
    = ds_found (highlight_left_column_fast
                  (pdf_pages Runs.pdf_hit ++ pdf_pages Runs.pdf_miss)
                  Samples.utrs None).
Proof.
  intros unreadable.
  apply (page_without_words_is_passed_over Samples.utrs None
           (pdf_pages Runs.pdf_hit) (pdf_pages Runs.pdf_miss) unreadable).
  reflexivity.
Defined.

(** X3. The pages of a document are processed independently of each
    other: the highlights and the bands of two page sequences put one
    after the other are those of the first followed by those of the
    second, and an identifier is found in the whole exactly when it is
    found in one of the two. *)
Theorem pages_are_independent (utrs : gset string) (manual_x1 : option float)
    (pdf1 pdf2 : list Page) (u : string) :
  ds_out (highlight_left_column_fast (pdf1 ++ pdf2) utrs manual_x1)
  = ds_out (highlight_left_column_fast pdf1 utrs manual_x1)
    ++ ds_out (highlight_left_column_fast pdf2 utrs manual_x1)
  ∧ log_band <$> ds_logs (highlight_left_column_fast (pdf1 ++ pdf2)
                            utrs manual_x1)
    = (log_band <$> ds_logs (highlight_left_column_fast pdf1 utrs manual_x1))
      ++ (log_band <$> ds_logs (highlight_left_column_fast pdf2
                                  utrs manual_x1))
  ∧ (ds_found (highlight_left_column_fast (pdf1 ++ pdf2) utrs manual_x1) !! u
     = Some true
     ↔ ds_found (highlight_left_column_fast pdf1 utrs manual_x1) !! u
       = Some true
       ∨ ds_found (highlight_left_column_fast pdf2 utrs manual_x1) !! u
         = Some true).
Proof.
  split; [by rewrite !highlight_out, fmap_app|].
  split; [by rewrite !highlight_logs, fmap_app|].
  rewrite !highlight_found, !lookup_pages_found.
  setoid_rewrite elem_of_app. rewrite lookup_gset_to_gmap.
  unfold guard. case_decide; naive_solver.
Qed.

(** X4. The log of a document has one line for each page, numbered from
    1 in page order; a line gives the number of words of its page, the
    band of the page, and a hit count that is the number of highlights
    added to that page and is at most the number of words. *)
Theorem log_lines_describe_the_pages (pdf : list Page) (utrs : gset string)
    (manual_x1 : option float) :
  let r := highlight_left_column_fast pdf utrs manual_x1 in
  log_pno <$> ds_logs r = seq 1 (length pdf)
  ∧ log_words <$> ds_logs r = (λ page, length (page_words page)) <$> pdf
  ∧ log_band <$> ds_logs r = page_band utrs manual_x1 <$> pdf
  ∧ log_hits <$> ds_logs r = length <$> ds_out r
  ∧ Forall (λ lg, log_hits lg ≤ log_words lg) (ds_logs r).
Proof.
  intros r. subst r. rewrite highlight_out.
  unfold highlight_left_column_fast. rewrite process_pages_log_lines.
  cbn [ds_logs app].
  assert (∀ (k : nat) (l : list Page),
            log_pno <$> imap (λ i page,
              {| log_pno := k + i;
                 log_words := length (page_words page);
                 log_hits :=
                   length (filter (hit (y_min page)
                                     (page_band utrs manual_x1 page) utrs)
                                  (page_words page));
                 log_band := page_band utrs manual_x1 page |}) l
            = seq k (length l)) as Hpno.
  { intros k l. revert k. induction l as [|p l IH]; intros k; [done|].
    cbn [imap fmap list_fmap length seq log_pno]. rewrite Nat.add_0_r.
    f_equal. rewrite <-IH. f_equal. apply imap_ext. intros i q _.
    simpl. f_equal. lia. }
  split; [apply Hpno|].
  assert (∀ {C} (p : PageLog → C) (g : Page → C) (f : nat → Page → PageLog)
            (l : list Page),
            (∀ i x, p (f i x) = g x) → p <$> imap f l = g <$> l) as Hproj.
  { intros C p g f l Hpg. rewrite fmap_imap.
    rewrite <-(imap_const g l). apply imap_ext. intros i x _. apply Hpg. }
  split; [by apply Hproj|].
  split; [by apply Hproj|].
  split.
  - rewrite <-list_fmap_compose. apply Hproj. intros i page. simpl.
    by rewrite length_fmap.
  - apply Forall_forall. intros lg Hlg.
    apply list_elem_of_lookup in Hlg as [i Hi].
    rewrite list_lookup_imap in Hi.
    destruct (pdf !! i) as [page|]; [|done]. simpl in Hi.
    injection Hi as <-. simpl. apply length_filter.
Qed.

(** X5. A document reports an identifier as found exactly when it gets a
    highlight: some flag of the returned found-map is true if and only if
    the highlight list of some page is not empty. *)
Theorem found_iff_highlighted (pdf : list Page) (utrs : gset string)
    (manual_x1 : option float) :
  let r := highlight_left_column_fast pdf utrs manual_x1 in
  (∃ u, ds_found r !! u = Some true) ↔ Exists (λ hl, hl ≠ []) (ds_out r).
Proof.
  intros r. subst r. rewrite highlight_out, Exists_exists. split.
  - intros (u & Hu).
    rewrite highlight_found, lookup_pages_found, lookup_gset_to_gmap in Hu.
    destruct Hu as [Hu|(page & Hpage & Hin)].
    { unfold guard in Hu. by case_decide. }
    apply page_ids_hit in Hin as (w & Hw & Hh & _).
    eexists. split; [apply list_elem_of_fmap; exists page; by split|].
    intros Hnil. apply fmap_nil_inv in Hnil.
    assert (w ∈ filter (hit (y_min page) (page_band utrs manual_x1 page) utrs)
                       (page_words page)) as Hin
      by (by apply list_elem_of_filter).
    rewrite Hnil in Hin. by apply elem_of_nil in Hin.
  - intros (hl & Hhl & Hne).
    apply list_elem_of_fmap in Hhl as (page & -> & Hpage).
    destruct (filter _ (page_words page)) as [|w ws] eqn:E; [done|].
    exists (word_upper w). rewrite highlight_found, lookup_pages_found.
    right. exists page. split; [done|].
    unfold page_ids. rewrite E. apply elem_of_cons. by left.
Qed.

(** X6. Without a manual boundary the band starts at the first matching
    word below the header, so a word whose left edge is further left than
    that of this first word is never highlighted, whatever its text:
    every highlight of the page starts at or right of the first match. *)
Theorem auto_band_highlights_right_of_first_match (utrs : gset string)
    (pno : nat) (page : Page) (fm : gmap string bool)
    (pre post : list Word) (w : Word) (r : Rect) :
  page_words page = pre ++ w :: post →
  Forall (λ v, ¬ band_seed (y_min page) utrs v) pre →
  band_seed (y_min page) utrs w →
  r ∈ highlights (fst (process_page utrs None pno page fm)) →
  (w_x0 w <=? r_x0 r) = true.
Proof.
  intros Hwords Hpre Hseed Hr.
  apply elem_of_page_highlights in Hr as (v & _ & (_ & Hb & _) & ->).
  unfold page_band in Hb.
  rewrite Hwords, sample_left_x_skip, (sample_left_x_seed utrs _ w) in Hb
    by done.
  apply in_band_edges in Hb as [Hb _]. apply Hb.
Qed.

(** On [page_first_match] the band starts at 300: the matching word at 50
    gets no highlight. *)
Lemma auto_band_highlights_witness :
  highlights (fst (process_page Samples.utrs None 1 Samples.page_first_match ∅))
  = [ word_rect (Samples.word 300 700 360 "q1435783") ]
  ∧ (w_x0 (Samples.word 300 700 360 "q1435783")
       <=? r_x0 (word_rect (Samples.word 300 700 360 "q1435783"))) = true.
Proof.
  split; [reflexivity|].
  apply (auto_band_highlights_right_of_first_match Samples.utrs 1
           Samples.page_first_match ∅
           [Samples.word 40 100 90 "Q1435783"]
           [Samples.word 50 250 110 "Q1435783"]
           (Samples.word 300 700 360 "q1435783")).
  - reflexivity.
  - repeat constructor. intros [Hy _]. vm_compute in Hy. discriminate Hy.
  - split; [reflexivity|]. apply elem_of_singleton. reflexivity.
  - apply elem_of_cons. left. reflexivity.
Defined.

(* ================================================================== *)
(** * Further properties of the run *)
(* ================================================================== *)

Section run_facts.
Context (utrs : gset string) (manual_x1 : option float).

Lemma elem_of_report pdf_files u found :
  (u, found) ∈ report_of utrs manual_x1 pdf_files
  ↔ u ∈ utrs
    ∧ ∃ pdf_file,
        pdf_file ∈ pdf_files
        ∧ default false
            (ds_found (highlight_left_column_fast (pdf_pages pdf_file)
                         utrs manual_x1) !! u) = found.
Proof.
  unfold report_of, run_pdfs.
  rewrite elem_of_drop_duplicates, csv_rows_run_pdfs. cbn [csv_rows app].
  rewrite list_elem_of_bind. unfold rows_of.
  setoid_rewrite list_elem_of_fmap. setoid_rewrite elem_of_sorted_utrs.
  naive_solver.
Qed.

Lemma zip_entries_run_pdfs pdf_files st :
  zip_entries (fold_left (run_pdf utrs manual_x1) pdf_files st)
  = zip_entries st
    ++ ((λ f, (out_name (pdf_name f),
               ds_out (highlight_left_column_fast (pdf_pages f)
                         utrs manual_x1)))
          <$> pdf_files).
Proof.
  revert st. induction pdf_files as [|f fs IH]; intros st; simpl.
  - by rewrite app_nil_r.
  - rewrite IH. simpl. by rewrite <-app_assoc.
Qed.

Lemma all_logs_run_pdfs pdf_files st :
  all_logs (fold_left (run_pdf utrs manual_x1) pdf_files st)
  = all_logs st
    ++ (f ← pdf_files;
        (λ ln, (pdf_name f, ln))
          <$> ds_logs (highlight_left_column_fast (pdf_pages f)
                         utrs manual_x1)).
Proof.
  revert st. induction pdf_files as [|f fs IH]; intros st; simpl.
  - by rewrite app_nil_r.
  - rewrite IH. simpl. by rewrite <-app_assoc.
Qed.

Lemma found_true_iff pdf u :
  ds_found (highlight_left_column_fast pdf utrs manual_x1) !! u = Some true
  ↔ ∃ page w,
      page ∈ pdf ∧ w ∈ page_words page
      ∧ hit (y_min page) (page_band utrs manual_x1 page) utrs w
      ∧ word_upper w = u.
Proof.
  rewrite highlight_found, lookup_pages_found, lookup_gset_to_gmap.
  setoid_rewrite page_ids_hit. unfold guard. case_decide; naive_solver.
Qed.

Lemma found_flag pdf u :
  u ∈ utrs →
  ∃ b, ds_found (highlight_left_column_fast pdf utrs manual_x1) !! u = Some b.
Proof.
  intros Hu.
  assert (u ∈ dom (ds_found (highlight_left_column_fast pdf utrs manual_x1)))
    as Hd.
  { rewrite highlight_found. apply elem_of_dom, pages_found_keys; [|done].
    intros v. rewrite lookup_gset_to_gmap. unfold guard.
    case_decide; [by eauto|]. split; [by intros [? ?]|done]. }
  apply elem_of_dom in Hd as [b Hb]. eauto.
Qed.

End run_facts.

Lemma highlight_logs_length (pdf : list Page) (utrs : gset string)
    (manual_x1 : option float) :
  length (ds_logs (highlight_left_column_fast pdf utrs manual_x1))
  = length pdf.
Proof.
  rewrite <-(length_fmap log_band), highlight_logs. apply length_fmap.
Qed.

(** X8. The rows of the report, for any number of documents: an
    identifier has a row with [found = True] exactly when some document
    has a page with a word that passes the header and band tests and
    whose normalized text is the identifier, and a row with
    [found = False] exactly when some document has no such word; there
    is no row for a string that is not an identifier. *)
Theorem report_rows_by_document (utrs : gset string)
    (manual_x1 : option float) (pdf_files : list PdfFile) (u : string) :
  let shows (pdf_file : PdfFile) :=
    ∃ page w,
      page ∈ pdf_pages pdf_file ∧ w ∈ page_words page
      ∧ hit (y_min page) (page_band utrs manual_x1 page) utrs w
      ∧ word_upper w = u in
  ((u, true) ∈ report_of utrs manual_x1 pdf_files
   ↔ u ∈ utrs ∧ ∃ pdf_file, pdf_file ∈ pdf_files ∧ shows pdf_file)
  ∧ ((u, false) ∈ report_of utrs manual_x1 pdf_files
     ↔ u ∈ utrs ∧ ∃ pdf_file, pdf_file ∈ pdf_files ∧ ¬ shows pdf_file).
Proof.
  intros shows. subst shows. rewrite !elem_of_report. split.
  - split.
    + intros (Hu & f & Hf & Hb). split; [done|]. exists f. split; [done|].
      apply found_true_iff.
      destruct (ds_found _ !! u) as [[]|]; simpl in Hb; congruence.
    + intros (Hu & f & Hf & Hs). split; [done|]. exists f. split; [done|].
      apply found_true_iff in Hs. by rewrite Hs.
  - split.
    + intros (Hu & f & Hf & Hb). split; [done|]. exists f. split; [done|].
      intros Hs. apply found_true_iff in Hs. rewrite Hs in Hb. done.
    + intros (Hu & f & Hf & Hs). split; [done|]. exists f. split; [done|].
      destruct (found_flag utrs manual_x1 (pdf_pages f) u Hu) as [[] Hb];
        rewrite Hb; [|done].
      destruct Hs. by apply found_true_iff.
Qed.

(** X9. In the report of a run over at least one document every loaded
    identifier has one row or two rows, never none and never more, and
    no row is repeated. *)
Theorem report_rows_per_identifier (utrs : gset string)
    (manual_x1 : option float) (pdf_file : PdfFile)
    (pdf_files : list PdfFile) (u : string) :
  u ∈ utrs →
  let rows := filter (λ row, row.1 = u)
                (report_of utrs manual_x1 (pdf_file :: pdf_files)) in
  1 ≤ length rows ≤ 2
  ∧ NoDup (report_of utrs manual_x1 (pdf_file :: pdf_files)).
Proof.
  intros Hu rows.
  pose proof (NoDup_drop_duplicates
                (csv_rows (run_pdfs utrs manual_x1 (pdf_file :: pdf_files))))
    as Hnd.
  fold (report_of utrs manual_x1 (pdf_file :: pdf_files)) in Hnd.
  split; [|done]. split.
  - destruct (found_flag utrs manual_x1 (pdf_pages pdf_file) u Hu) as [b Hb].
    assert ((u, b) ∈ rows) as Hin.
    { apply list_elem_of_filter. split; [done|]. apply elem_of_report.
      split; [done|]. exists pdf_file. split; [apply elem_of_cons; by left|].
      by rewrite Hb. }
    destruct rows; [by apply elem_of_nil in Hin|simpl; lia].
  - assert (NoDup (rows.*2)) as Hsnd.
    { apply NoDup_fmap_2_strong; [|by apply NoDup_filter].
      intros [u1 b1] [u2 b2] H1 H2 Heq. simpl in Heq. subst b2.
      apply list_elem_of_filter in H1 as [H1 _].
      apply list_elem_of_filter in H2 as [H2 _]. simpl in H1, H2.
      by subst. }
    assert (rows.*2 ⊆+ [true; false]) as Hsub.
    { apply NoDup_submseteq; [done|]. intros [] _; set_solver. }
    apply submseteq_length in Hsub. rewrite length_fmap in Hsub.
    simpl in Hsub. lia.
Qed.

Lemma report_rows_per_identifier_witness :
  let rows := filter (λ row, row.1 = "Q1435783")
                (report_of Samples.utrs None [Runs.pdf_hit; Runs.pdf_miss]) in
  1 ≤ length rows ≤ 2
  ∧ NoDup (report_of Samples.utrs None [Runs.pdf_hit; Runs.pdf_miss]).
Proof.
  apply (report_rows_per_identifier Samples.utrs None Runs.pdf_hit
           [Runs.pdf_miss] "Q1435783").
  apply elem_of_singleton. reflexivity.
Defined.

(** X10. A run that reaches the documents returns one output for each
    uploaded PDF, in upload order, named by [out_name] and holding one
    highlight list for each page of that PDF; its report is the report of
    the loaded identifier set, which is not empty, and its log has one
    line for each page of each PDF. *)
Theorem start_outputs (excel_files : list ExcelFile)
    (pdf_files : list PdfFile) (manual_band : bool) (manual_x1 : float)
    (r : RunResult) :
  start excel_files pdf_files manual_band manual_x1 = inr r →
  ∃ utrs,
    load_utrs_from_excel excel_files = inr utrs
    ∧ utrs ≠ ∅
    ∧ report r = report_of utrs (manual_arg manual_band manual_x1) pdf_files
    ∧ documents r
      = (λ f, (out_name (pdf_name f),
               ds_out (highlight_left_column_fast (pdf_pages f) utrs
                         (manual_arg manual_band manual_x1))))
          <$> pdf_files
    ∧ Forall2 (λ f doc, length doc.2 = length (pdf_pages f))
              pdf_files (documents r)
    ∧ (debug_log r).*1 = f ← pdf_files; replicate (length (pdf_pages f))
                                                   (pdf_name f).
Proof.
  unfold start. intros Hstart.
  destruct excel_files as [|xl xls]; [by destruct pdf_files|].
  destruct pdf_files as [|pdf pdfs]; [done|].
  destruct (load_utrs_from_excel (xl :: xls)) as [why|utrs]; [done|].
  case_decide as Hne; [done|]. injection Hstart as <-.
  exists utrs. split; [done|]. split; [done|]. split; [done|].
  cbn [documents debug_log]. unfold run_pdfs.
  rewrite zip_entries_run_pdfs, all_logs_run_pdfs. cbn [zip_entries all_logs app].
  split; [done|]. split.
  - apply Forall2_fmap_r, Forall_Forall2_diag, Forall_forall.
    intros f _. simpl. by rewrite highlight_out, length_fmap.
  - generalize (pdf :: pdfs). intros l.
    induction l as [|f l IH]; [done|].
    cbn [mbind list_bind]. rewrite !fmap_app.
    f_equal; [|apply IH].
    rewrite <-(highlight_logs_length (pdf_pages f) utrs
                 (manual_arg manual_band manual_x1)).
    rewrite <-list_fmap_compose.
    induction (ds_logs _) as [|ln lns IHl]; [done|]. simpl. by f_equal.
Qed.

Lemma start_outputs_witness :
  ∃ utrs,
    load_utrs_from_excel [Books.book] = inr utrs
    ∧ utrs ≠ ∅
    ∧ [ ("Q1435783", true); ("Q1435783", false) ]
      = report_of utrs (manual_arg false 220) [Runs.pdf_hit; Runs.pdf_miss]
    ∧ [ ("a_highlighted.pdf",
         [[ word_rect (Samples.word 50 200 110 "Q1435783") ]]);
        ("b_highlighted.pdf", [[]]) ]
      = (λ f, (out_name (pdf_name f),
               ds_out (highlight_left_column_fast (pdf_pages f) utrs
                         (manual_arg false 220))))
          <$> [Runs.pdf_hit; Runs.pdf_miss]
    ∧ Forall2 (λ f doc, length doc.2 = length (pdf_pages f))
              [Runs.pdf_hit; Runs.pdf_miss]
              [ ("a_highlighted.pdf",
                 [[ word_rect (Samples.word 50 200 110 "Q1435783") ]]);
                ("b_highlighted.pdf", [[]]) ]
    ∧ ["a.pdf"; "b.pdf"]
      = f ← [Runs.pdf_hit; Runs.pdf_miss];
        replicate (length (pdf_pages f)) (pdf_name f).
Proof.
  apply (start_outputs [Books.book] [Runs.pdf_hit; Runs.pdf_miss] false 220
           {| report := [ ("Q1435783", true); ("Q1435783", false) ];
              documents :=
                [ ("a_highlighted.pdf",
                   [[ word_rect (Samples.word 50 200 110 "Q1435783") ]]);
                  ("b_highlighted.pdf", [[]]) ];
              debug_log :=
                [ ("a.pdf",
                   {| log_pno := 1; log_words := 1; log_hits := 1;
                      log_band := {| x0_band := 50; x1_band := 190;
                                     mode := auto |} |});
                  ("b.pdf",
                   {| log_pno := 1; log_words := 1; log_hits := 0;
                      log_band := {| x0_band := 0; x1_band := 140;
                                     mode := fallback |} |}) ] |}).
  reflexivity.
Defined.

(* ================================================================== *)
(** * Further properties of the loader *)
(* ================================================================== *)

Section loader_facts.

Lemma load_files_cons f files utrs :
  load_files (f :: files) utrs
  = match file_column f with
    | Some vals => load_files files (add_column vals utrs)
    | None => inl (file_stop f)
    end.
Proof.
  unfold file_column, file_stop. simpl.
  destruct (xl_sheets f) as [sheets|]; simpl; [|done].
  rewrite scan_sheets_first. by destruct (first_column (scan_order sheets)).
Qed.

Lemma load_files_inr files utrs utrs' :
  load_files files utrs = inr utrs' →
  Forall (λ f, is_Some (file_column f)) files
  ∧ ∀ u, u ∈ utrs'
         ↔ u ∈ utrs
           ∨ ∃ f vals val,
               f ∈ files ∧ file_column f = Some vals
               ∧ val ∈ vals ∧ u ∈ cell_tokens val.
Proof.
  revert utrs. induction files as [|f files IH]; intros utrs Hload.
  - simpl in Hload. injection Hload as <-. split; [constructor|].
    intros u. split; [by left|]. intros [?|(f & ? & ? & Hf & _)]; [done|].
    by apply elem_of_nil in Hf.
  - rewrite load_files_cons in Hload.
    destruct (file_column f) as [vals|] eqn:Hcol; [|done].
    destruct (IH _ Hload) as [Hall Hin]. split; [constructor; eauto|].
    intros u. rewrite Hin, add_column_tokens, elem_of_union.
    rewrite elem_of_list_to_set, list_elem_of_bind.
    setoid_rewrite elem_of_cons. split.
    + intros [[Hu|(val & Htok & Hval)]|(g & vs & val & Hg & Hgc & Hval & Htok)].
      * by left.
      * right. exists f, vals, val. eauto.
      * right. exists g, vs, val. eauto.
    + intros [Hu|(g & vs & val & [->|Hg] & Hgc & Hval & Htok)].
      * left. by left.
      * left. right. exists val. split; [done|]. congruence.
      * right. exists g, vs, val. eauto.
Qed.

Lemma load_files_total files utrs :
  Forall (λ f, is_Some (file_column f)) files →
  ∃ utrs', load_files files utrs = inr utrs'.
Proof.
  intros Hall. revert utrs.
  induction Hall as [|f files [vals Hf] _ IH]; intros utrs; [by eexists|].
  rewrite load_files_cons, Hf. apply IH.
Qed.

Lemma load_files_inl files utrs why :
  load_files files utrs = inl why →
  ∃ before f after,
    files = before ++ f :: after
    ∧ Forall (λ f, is_Some (file_column f)) before
    ∧ file_column f = None
    ∧ why = file_stop f.
Proof.
  revert utrs. induction files as [|f files IH]; intros utrs Hload; [done|].
  rewrite load_files_cons in Hload.
  destruct (file_column f) as [vals|] eqn:Hcol.
  - destruct (IH _ Hload) as (before & g & after & -> & Hb & Hg & Hwhy).
    exists (f :: before), g, after. split; [done|].
    split; [constructor; eauto|done].
  - injection Hload as <-. exists [], f, files. by repeat split.
Qed.

Lemma length_chars s : length (Text.chars s) = String.length s.
Proof. induction s as [|c s IH]; simpl; [done|]. by f_equal. Qed.

Lemma upper_alnum_id_char c :
  Text.is_alnum c = true → is_id_char (Text.upper_char c) = true.
Proof. destruct c as [[] [] [] [] [] [] [] []]; vm_compute; congruence. Qed.

Lemma upper_id_char c :
  is_id_char c = true → Text.upper_char c = c.
Proof. destruct c as [[] [] [] [] [] [] [] []]; vm_compute; congruence. Qed.

Lemma id_char_not_space c :
  is_id_char c = true → Text.is_space c = false.
Proof. destruct c as [[] [] [] [] [] [] [] []]; vm_compute; congruence. Qed.

Lemma upper_chars_id_char c :
  is_id_char c = true → Text.upper_chars c = [c].
Proof. destruct c as [[] [] [] [] [] [] [] []]; vm_compute; congruence. Qed.

Lemma upper_chars_ids l :
  Forall (λ c, is_id_char c = true) l → l ≫= Text.upper_chars = l.
Proof.
  induction 1 as [|c l Hc _ IH]; [done|].
  cbn [mbind list_bind]. fold (l ≫= Text.upper_chars).
  by rewrite upper_chars_id_char, IH.
Qed.

Lemma upper_chars_alnum c :
  Text.is_alnum c = true → Text.upper_chars c = [Text.upper_char c].
Proof. destruct c as [[] [] [] [] [] [] [] []]; vm_compute; congruence. Qed.

(** Upper-casing letters and digits is done character by character. *)
Lemma upper_alnum_run r :
  Forall (λ c, Text.is_alnum c = true) r →
  Text.upper (Text.str r) = Text.str (map Text.upper_char r).
Proof.
  intros Hr. unfold Text.upper. rewrite chars_str. f_equal.
  induction Hr as [|c r Hc _ IH]; [done|].
  cbn [mbind list_bind map]. fold (r ≫= Text.upper_chars).
  by rewrite upper_chars_alnum, IH.
Qed.

(** The tokens of a cell, through the runs of its text. *)
Lemma cell_tokens_runs text :
  cell_tokens (Some text)
  = (λ r, Text.str (map Text.upper_char r))
      <$> filter (λ r, 6 ≤ length r)
            (Text.runs Text.is_alnum (Text.chars text)).
Proof.
  unfold cell_tokens, extract_utrs_from_cell, UTR_PATTERN_findall.
  replace (Text.chars (Text.strip text))
    with (Text.strip_chars (Text.chars text))
    by (unfold Text.strip; by rewrite chars_str).
  rewrite findall_chars_runs, runs_strip_chars.
  rewrite <-list_fmap_compose.
  apply Forall_fmap_ext, Forall_forall. intros r Hr. simpl.
  apply list_elem_of_filter in Hr as [_ Hr].
  pose proof (runs_go_kept Text.is_alnum [] (Text.chars text)
                ltac:(constructor)) as HF.
  rewrite Forall_forall in HF.
  rewrite strip_alnum by (by apply HF).
  apply upper_alnum_run. by apply HF.
Qed.

Lemma cell_tokens_shape val u :
  u ∈ cell_tokens val →
  6 ≤ length (Text.chars u)
  ∧ Forall (λ c, is_id_char c = true) (Text.chars u).
Proof.
  destruct val as [text|]; [|by intros ?%elem_of_nil].
  rewrite cell_tokens_runs, list_elem_of_fmap.
  intros (r & -> & Hr). apply list_elem_of_filter in Hr as [Hlen Hr].
  rewrite chars_str. split; [by rewrite length_map|].
  pose proof (runs_go_kept Text.is_alnum [] (Text.chars text)
                ltac:(constructor)) as HF.
  rewrite Forall_forall in HF. specialize (HF r Hr).
  apply Forall_fmap. eapply Forall_impl; [done|].
  intros c Hc. by apply upper_alnum_id_char.
Qed.

End loader_facts.

(** X11. Loading returns an identifier set exactly when every source
    opens and has a "utr"-like label in some sheet and header row;
    otherwise it stops at the first source that has none, with "unable
    to open" when that file does not open and "no UTR-like column" when
    it does, whatever the later sources are. *)
Theorem load_succeeds_or_stops_at_first_bad_source
    (excel_files : list ExcelFile) :
  ((∃ utrs, load_utrs_from_excel excel_files = inr utrs)
   ↔ Forall (λ f, is_Some (file_column f)) excel_files)
  ∧ ∀ why,
      load_utrs_from_excel excel_files = inl why →
      ∃ before f after,
        excel_files = before ++ f :: after
        ∧ Forall (λ f, is_Some (file_column f)) before
        ∧ file_column f = None
        ∧ why = match xl_sheets f with
                | None => UnableToOpen (xl_name f)
                | Some _ => NoUtrColumn (xl_name f)
                end.
Proof.
  unfold load_utrs_from_excel. split; [split|].
  - intros [utrs Hload]. by apply load_files_inr in Hload as [? _].
  - apply load_files_total.
  - apply load_files_inl.
Qed.

(** X12. The loaded identifier set is the union over the sources: a
    string is an identifier exactly when it is a token of a cell of the
    column chosen in one of the sources. *)
Theorem loaded_set_is_the_union (excel_files : list ExcelFile)
    (utrs : gset string) (u : string) :
  load_utrs_from_excel excel_files = inr utrs →
  (u ∈ utrs
   ↔ ∃ f vals val,
       f ∈ excel_files ∧ file_column f = Some vals
       ∧ val ∈ vals ∧ u ∈ cell_tokens val).
Proof.
  intros Hload. apply load_files_inr in Hload as [_ Hin].
  rewrite Hin. split; [|by right]. intros [Hu|?]; [|done].
  by apply not_elem_of_empty in Hu.
Qed.

Lemma loaded_set_is_the_union_witness :
  "Q1435783" ∈ ({[ "Q1435783" ]} : gset string)
  ↔ ∃ f vals val,
      f ∈ [Books2.good] ∧ file_column f = Some vals
      ∧ val ∈ vals ∧ "Q1435783" ∈ cell_tokens val.
Proof.
  apply (loaded_set_is_the_union [Books2.good] {[ "Q1435783" ]} "Q1435783").
  reflexivity.
Defined.

(** X13. The order of the sources does not matter when loading
    succeeds: the same files in another order give the same set. *)
Theorem load_order_independent (excel_files excel_files' : list ExcelFile)
    (utrs : gset string) :
  excel_files ≡ₚ excel_files' →
  load_utrs_from_excel excel_files = inr utrs →
  load_utrs_from_excel excel_files' = inr utrs.
Proof.
  unfold load_utrs_from_excel. intros Hperm Hload.
  pose proof (load_files_inr _ _ _ Hload) as [Hall Hin].
  rewrite Hperm in Hall.
  destruct (load_files_total excel_files' ∅ Hall) as [utrs' Hload'].
  rewrite Hload'. f_equal. apply set_eq. intros u.
  apply load_files_inr in Hload' as [_ Hin'].
  rewrite Hin, Hin'. by setoid_rewrite Hperm.
Qed.

Lemma load_order_independent_witness :
  load_utrs_from_excel [Books.book; Books2.good] = inr {[ "Q1435783" ]}.
Proof.
  apply (load_order_independent [Books2.good; Books.book]
           [Books.book; Books2.good] {[ "Q1435783" ]}).
  - apply perm_swap.
  - reflexivity.
Defined.

(** X14. Every identifier that loading returns has at least six
    characters, all of them upper-case ASCII letters or digits, and is
    its own normalized text: a word whose text is the identifier
    normalizes to it. *)
Theorem loaded_identifiers_shape (excel_files : list ExcelFile)
    (utrs : gset string) (u : string) :
  load_utrs_from_excel excel_files = inr utrs →
  u ∈ utrs →
  6 ≤ String.length u
  ∧ Forall (λ c, is_id_char c = true) (Text.chars u)
  ∧ Text.upper (Text.strip u) = u.
Proof.
  intros Hload Hu.
  apply load_files_inr in Hload as [_ Hin]. apply Hin in Hu.
  destruct Hu as [Hu|(f & vals & val & _ & _ & _ & Htok)];
    [by apply not_elem_of_empty in Hu|].
  apply cell_tokens_shape in Htok as [Hlen Hchars].
  split; [|split; [done|]].
  - by rewrite <-length_chars.
  - unfold Text.strip, Text.upper.
    rewrite strip_chars_id
      by (eapply Forall_impl; [done|apply id_char_not_space]).
    rewrite chars_str.
    rewrite <-(str_chars u) at 2. f_equal.
    by apply upper_chars_ids.
Qed.

Lemma loaded_identifiers_shape_witness :
  6 ≤ String.length "Q1435783"
  ∧ Forall (λ c, is_id_char c = true) (Text.chars "Q1435783")
  ∧ Text.upper (Text.strip "Q1435783") = "Q1435783".
Proof.
  apply (loaded_identifiers_shape [Books2.good] {[ "Q1435783" ]} "Q1435783").
  - reflexivity.
  - apply elem_of_singleton. reflexivity.
Defined.

Example hex_default : hex_to_rgb01 "#FFD400" = Some (1, 212 / 255, 0).
Proof. reflexivity. Qed.
(** [int(s, 16)] skips the white space of [str.strip] but for the
    separators 28-31, which it refuses. *)
Example int_base16_space :
  int_base16 [ascii_of_N 133; ascii_of_N 160; ascii_of_N 102] = Some 15%Z
  ∧ int_base16 [ascii_of_N 102; ascii_of_N 9] = Some 15%Z
  ∧ int_base16 [ascii_of_N 28; ascii_of_N 102] = None
  ∧ int_base16 [ascii_of_N 102; ascii_of_N 31] = None.
Proof. repeat split; reflexivity. Qed.

Example int_base16_ex :
  int_base16 (Text.chars "ff") = Some 255%Z
  ∧ int_base16 (Text.chars "-f") = Some (-15)%Z
  ∧ int_base16 (Text.chars " f") = Some 15%Z
  ∧ int_base16 (Text.chars "0x") = None
  ∧ int_base16 (Text.chars "0x_f") = Some 15%Z
  ∧ int_base16 (Text.chars "f_") = None
  ∧ int_base16 (Text.chars "_f") = None
  ∧ int_base16 (Text.chars "f_f  ") = Some 255%Z
  ∧ int_base16 (Text.chars "f f") = None
  ∧ int_base16 (Text.chars "") = None
  ∧ int_base16 (Text.chars "0") = Some 0%Z
  ∧ int_base16 (Text.chars "g") = None.
Proof. repeat split; reflexivity. Qed.

(* ================================================================== *)
(** * Colour, opacity and output names *)
(* ================================================================== *)

Section colour_facts.

Lemma ltb_leb x y : (x <? y) = true → (x <=? y) = true.
Proof.
  rewrite FloatAxioms.ltb_spec, FloatAxioms.leb_spec. unfold SFltb, SFleb.
  destruct (SFcompare _ _) as [[]|]; congruence.
Qed.

Lemma in_all_ascii c : c ∈ all_ascii.
Proof.
  unfold all_ascii. apply list_elem_of_fmap. exists (nat_of_ascii c).
  split; [by rewrite ascii_nat_embedding|].
  apply elem_of_seq. pose proof (nat_ascii_bounded c). lia.
Qed.

Lemma hex_pairs_checked :
  forallb (λ d1, forallb (hex_pair_ok d1) all_ascii) all_ascii = true.
Proof. vm_compute. reflexivity. Qed.

Lemma hex_pair d1 d2 v1 v2 :
  hex_value d1 = Some v1 → hex_value d2 = Some v2 →
  let c := float_of_int (16 * v1 + v2) / 255 in
  rgb_component [d1; d2] 0 = Some c
  ∧ (0 <=? c) = true ∧ (c <=? 1) = true.
Proof.
  intros H1 H2 c.
  pose proof hex_pairs_checked as Hall.
  rewrite forallb_forall in Hall.
  specialize (Hall d1 (proj1 (list_elem_of_In _ _) (in_all_ascii d1))).
  rewrite forallb_forall in Hall.
  specialize (Hall d2 (proj1 (list_elem_of_In _ _) (in_all_ascii d2))).
  unfold hex_pair_ok in Hall. rewrite H1, H2 in Hall. cbv zeta in Hall.
  apply andb_true_iff in Hall as [Hall Hle].
  apply andb_true_iff in Hall as [Hint Hge].
  apply bool_decide_eq_true in Hint.
  split; [|by split].
  unfold rgb_component. cbn [drop take]. by rewrite Hint.
Qed.

Lemma lstrip_hash_hashes k l :
  lstrip_hash (replicate k "#"%char ++ l) = lstrip_hash l.
Proof. induction k as [|k IH]; [done|]. simpl. apply IH. Qed.

Lemma lstrip_hash_digit d v l :
  hex_value d = Some v → lstrip_hash (d :: l) = d :: l.
Proof.
  intros Hd. simpl. case_decide as Hc; [|done]. subst d. vm_compute in Hd.
  discriminate Hd.
Qed.

Lemma chars_app s1 s2 :
  Text.chars (s1 +:+ s2) = Text.chars s1 ++ Text.chars s2.
Proof. induction s1 as [|c s1 IH]; [done|]. simpl. by f_equal. Qed.

Lemma str_app l1 l2 : Text.str (l1 ++ l2) = Text.str l1 +:+ Text.str l2.
Proof.
  induction l1 as [|c l1 IH]; [done|]. simpl. rewrite IH. reflexivity.
Qed.

End colour_facts.

(** X15. For a colour written as any number of ["#"], six hexadecimal
    digits in either case and anything after them, [hex_to_rgb01] returns
    the three pairs of digits divided by 255, each between 0 and 1; what
    follows the sixth digit is not read. *)
Theorem hex_to_rgb01_six_digits (k : nat) (d1 d2 d3 d4 d5 d6 : ascii)
    (v1 v2 v3 v4 v5 v6 : Z) (rest : list ascii) :
  hex_value d1 = Some v1 → hex_value d2 = Some v2 →
  hex_value d3 = Some v3 → hex_value d4 = Some v4 →
  hex_value d5 = Some v5 → hex_value d6 = Some v6 →
  let r := float_of_int (16 * v1 + v2) / 255 in
  let g := float_of_int (16 * v3 + v4) / 255 in
  let b := float_of_int (16 * v5 + v6) / 255 in
  hex_to_rgb01
    (Text.str (replicate k "#"%char ++ [d1; d2; d3; d4; d5; d6] ++ rest))
  = Some (r, g, b)
  ∧ ((0 <=? r) = true ∧ (r <=? 1) = true)
  ∧ ((0 <=? g) = true ∧ (g <=? 1) = true)
  ∧ ((0 <=? b) = true ∧ (b <=? 1) = true).
Proof.
  intros H1 H2 H3 H4 H5 H6 r g b.
  destruct (hex_pair d1 d2 v1 v2 H1 H2) as (Hr & Hr0 & Hr1).
  destruct (hex_pair d3 d4 v3 v4 H3 H4) as (Hg & Hg0 & Hg1).
  destruct (hex_pair d5 d6 v5 v6 H5 H6) as (Hb & Hb0 & Hb1).
  split; [|by repeat split].
  unfold hex_to_rgb01. rewrite chars_str, lstrip_hash_hashes.
  cbn [app]. rewrite (lstrip_hash_digit d1 v1) by done.
  unfold rgb_component in *. cbn [drop take] in *.
  rewrite Hr. cbn [mbind option_bind]. rewrite Hg. cbn [mbind option_bind].
  rewrite take_0, Hb. done.
Qed.

Lemma hex_to_rgb01_six_digits_witness :
  hex_to_rgb01 "##ffd400cc"
  = Some (float_of_int 255 / 255, float_of_int 212 / 255,
          float_of_int 0 / 255)
  ∧ ((0 <=? float_of_int 255 / 255) = true
     ∧ (float_of_int 255 / 255 <=? 1) = true)
  ∧ ((0 <=? float_of_int 212 / 255) = true
     ∧ (float_of_int 212 / 255 <=? 1) = true)
  ∧ ((0 <=? float_of_int 0 / 255) = true
     ∧ (float_of_int 0 / 255 <=? 1) = true).
Proof.
  apply (hex_to_rgb01_six_digits 2 "f" "f" "d" "4" "0" "0"
           15 15 13 4 0 0 (Text.chars "cc")); reflexivity.
Defined.

(** X16. A colour with fewer than five characters after its leading
    ["#"] makes [hex_to_rgb01] raise: the slice for the blue component is
    empty. *)
Theorem hex_to_rgb01_too_short (hex_color : string) :
  length (lstrip_hash (Text.chars hex_color)) ≤ 4%nat →
  hex_to_rgb01 hex_color = None.
Proof.
  intros Hlen. unfold hex_to_rgb01.
  assert (rgb_component (lstrip_hash (Text.chars hex_color)) 4 = None) as Hb.
  { unfold rgb_component. rewrite drop_ge by done. done. }
  cbv zeta. rewrite Hb.
  destruct (rgb_component _ 0); simpl; [|done].
  by destruct (rgb_component _ 2).
Qed.

Lemma hex_to_rgb01_too_short_witness : hex_to_rgb01 "#FFD4" = None.
Proof. apply (hex_to_rgb01_too_short "#FFD4"). vm_compute. lia. Defined.

(** X17. The opacity handed to the highlighter is always between 0.2
    and 0.9, whatever the slider value, a value that is not a number
    included. *)
Theorem alpha_is_clamped (opacity_pct : float) :
  (0.2 <=? alpha_of opacity_pct) = true
  ∧ (alpha_of opacity_pct <=? 0.9) = true.
Proof.
  unfold alpha_of, py_max, py_min.
  destruct (opacity_pct / 100 <? 0.9) eqn:Hhi.
  - destruct (0.2 <? opacity_pct / 100) eqn:Hlo.
    + split; by apply ltb_leb.
    + split; reflexivity.
  - split; reflexivity.
Qed.

(** X18. A name that ends in [".pdf"] in any letter case loses these
    four characters and gets ["_highlighted.pdf"] in their place, so that
    two uploads whose names differ only in the letter case of the
    extension get the same output name. *)
Theorem out_name_drops_pdf_extension (stem ext : string) :
  Text.lower ext = ".pdf" →
  out_name (stem +:+ ext) = stem +:+ "_highlighted.pdf".
Proof.
  intros Hext. unfold out_name.
  assert (length (Text.chars ext) = 4%nat) as Hlen.
  { apply (f_equal Text.chars) in Hext. unfold Text.lower in Hext.
    rewrite chars_str in Hext. apply (f_equal length) in Hext.
    by rewrite length_map in Hext. }
  assert (Text.chars (Text.lower (stem +:+ ext))
          = map Text.lower_char (Text.chars stem) ++ Text.chars ".pdf") as Hlow.
  { unfold Text.lower at 1. rewrite chars_str, chars_app, map_app.
    f_equal. rewrite <-Hext. unfold Text.lower. by rewrite chars_str. }
  rewrite Hlow, chars_app, length_app, Hlen.
  replace (length (Text.chars stem) + 4 - 4)%nat
    with (length (Text.chars stem)) by lia.
  rewrite drop_app_length'
    by (by rewrite length_map).
  rewrite decide_True by done.
  by rewrite take_app_length, str_chars.
Qed.

Lemma out_name_drops_pdf_extension_witness :
  out_name "scan.PdF" = "scan_highlighted.pdf".
Proof. apply (out_name_drops_pdf_extension "scan" ".PdF"). reflexivity. Defined.

(* ================================================================== *)
(** * Header labels *)
(* ================================================================== *)

Section header_facts.

Lemma prefix_chars p s :
  String.prefix p s = true ↔ ∃ l2, Text.chars s = Text.chars p ++ l2.
Proof.
  revert s. induction p as [|a p IH]; intros s.
  - destruct s; simpl; split; eauto.
  - destruct s as [|b s]; simpl.
    + split; [done|]. by intros [l2 H].
    + destruct (ascii_dec a b) as [->|Hne].
      * rewrite IH. split; intros [l2 H]; exists l2.
        -- by f_equal.
        -- by injection H.
      * split; [done|]. intros [l2 H]. injection H as H _. by subst.
Qed.

Lemma contains_occurs p s :
  Text.contains p s = true ↔ occurs (Text.chars p) (Text.chars s).
Proof.
  unfold occurs. induction s as [|c s IH]; cbn [Text.contains].
  - rewrite orb_false_r, prefix_chars. simpl. split.
    + intros [l2 H]. by exists [], l2.
    + intros (l1 & l2 & H). symmetry in H.
      apply app_eq_nil in H as [-> H]. exists l2. by rewrite H.
  - rewrite orb_true_iff, prefix_chars, IH. simpl. split.
    + intros [[l2 H]|(l1 & l2 & H)].
      * by exists [], l2.
      * exists (c :: l1), l2. simpl. by f_equal.
    + intros ([|d l1] & l2 & H); simpl in H.
      * left. by exists l2.
      * right. injection H as _ H. by exists l1, l2.
Qed.

(** An occurrence of [q] in a text with a character outside [q] lies
    before or after that character. *)
Lemma occurs_sep q x c y :
  q ≠ [] → c ∉ q →
  occurs q (x ++ c :: y) ↔ occurs q x ∨ occurs q y.
Proof.
  intros Hq Hc. unfold occurs. split.
  - intros (l1 & l2 & H). symmetry in H.
    apply app_eq_inv in H as [(k & -> & Hk)|(k & -> & Hk)].
    + destruct k as [|d k]; simpl in Hk.
      * destruct q as [|d q]; [done|]. injection Hk as -> _.
        destruct Hc. apply elem_of_cons. by left.
      * injection Hk as _ ->. right. by exists k, l2.
    + apply app_eq_inv in Hk as [(k2 & -> & Hk2)|(k3 & -> & _)].
      * destruct k2 as [|d k2]; simpl in Hk2.
        -- left. exists l1, []. by rewrite !app_nil_r.
        -- injection Hk2 as -> _. destruct Hc.
           apply elem_of_app. right. apply elem_of_cons. by left.
      * left. by exists l1, k3.
  - intros [(l1 & l2 & ->)|(l1 & l2 & ->)].
    + exists l1, (l2 ++ c :: y). by rewrite <-!app_assoc.
    + exists (x ++ c :: l1), l2. by rewrite <-app_assoc.
Qed.

Lemma occurs_nil q : q ≠ [] → ¬ occurs q [].
Proof.
  intros Hq (l1 & l2 & H). symmetry in H.
  apply app_eq_nil in H as [_ H]. by apply app_eq_nil in H as [? _].
Qed.

(** White space, lower-cased, is no letter of ["utr"]. *)
Lemma lower_space_not_utr c :
  Text.is_space c = true → Text.lower_char c ∉ utr.
Proof.
  intros Hc Hin. unfold utr in Hin. simpl in Hin.
  rewrite !elem_of_cons, elem_of_nil in Hin.
  destruct c as [[] [] [] [] [] [] [] []]; vm_compute in Hc;
    try discriminate Hc; vm_compute in Hin; naive_solver.
Qed.

Lemma utr_occurs_sep x c y :
  Text.is_space c = true →
  occurs utr (map Text.lower_char (x ++ c :: y))
  ↔ occurs utr (map Text.lower_char x) ∨ occurs utr (map Text.lower_char y).
Proof.
  intros Hc. rewrite map_app. cbn [map].
  apply occurs_sep; [done|by apply lower_space_not_utr].
Qed.

Lemma utr_not_in_spaces l :
  Forall (λ c, Text.is_space c = true) l →
  ¬ occurs utr (map Text.lower_char l).
Proof.
  induction 1 as [|c l Hc _ IH]; [by apply occurs_nil|].
  change (c :: l) with ([] ++ c :: l). rewrite utr_occurs_sep by done.
  intros [H|H]; [by apply occurs_nil in H|done].
Qed.

Lemma utr_occurs_after_spaces pre l :
  Forall (λ c, Text.is_space c = true) pre →
  occurs utr (map Text.lower_char (pre ++ l))
  ↔ occurs utr (map Text.lower_char l).
Proof.
  induction 1 as [|c pre Hc _ IH]; [done|].
  change ((c :: pre) ++ l) with ([] ++ c :: (pre ++ l)).
  rewrite utr_occurs_sep, IH by done.
  split; [|by right]. intros [H|H]; [by apply occurs_nil in H|done].
Qed.

Lemma utr_occurs_before_spaces l post :
  Forall (λ c, Text.is_space c = true) post →
  occurs utr (map Text.lower_char (l ++ post))
  ↔ occurs utr (map Text.lower_char l).
Proof.
  intros Hpost. destruct Hpost as [|c post Hc Hpost].
  - by rewrite app_nil_r.
  - rewrite utr_occurs_sep by done.
    split; [|by left]. intros [H|H]; [done|].
    by apply utr_not_in_spaces in H.
Qed.

Lemma utr_occurs_strip l :
  occurs utr (map Text.lower_char (Text.strip_chars l))
  ↔ occurs utr (map Text.lower_char l).
Proof.
  destruct (strip_chars_split l) as (pre & post & Hl & Hpre & Hpost).
  rewrite Hl at 2.
  by rewrite utr_occurs_after_spaces, utr_occurs_before_spaces.
Qed.

Lemma utr_occurs_join ws :
  occurs utr (map Text.lower_char (join_chars ws))
  ↔ ∃ w, w ∈ ws ∧ occurs utr (map Text.lower_char w).
Proof.
  induction ws as [|p ps IH].
  - split; [by intros ?%occurs_nil|]. by intros (w & ?%elem_of_nil & _).
  - destruct ps as [|p' ps].
    + simpl. setoid_rewrite list_elem_of_singleton. naive_solver.
    + change (join_chars (p :: p' :: ps))
        with (p ++ Text.space :: join_chars (p' :: ps)).
      rewrite utr_occurs_sep, IH by done.
      setoid_rewrite (elem_of_cons (p' :: ps)). naive_solver.
Qed.

Lemma chars_join ws :
  Text.chars (Text.join " " (Text.str <$> ws)) = join_chars ws.
Proof.
  induction ws as [|p ps IH]; [done|].
  destruct ps as [|p' ps]; [apply chars_str|].
  change (Text.join " " (Text.str <$> p :: p' :: ps))
    with (Text.str p +:+ " " +:+ Text.join " " (Text.str <$> p' :: ps)).
  by rewrite !chars_app, chars_str, IH.
Qed.

(** The runs of kept characters of a text cut at a rejected one. *)
Lemma runs_go_keep_app keep cur x l :
  Forall (λ c, keep c = true) x →
  Text.runs_go keep cur (x ++ l) = Text.runs_go keep (rev x ++ cur) l.
Proof.
  intros Hx. revert cur. induction Hx as [|c x Hc _ IH]; intros cur; [done|].
  simpl. rewrite Hc, IH, <-app_assoc. done.
Qed.

Lemma runs_keep_sep keep x c y :
  Forall (λ c, keep c = true) x → keep c = false →
  Text.runs keep (x ++ c :: y)
  = match x with [] => [] | _ => [x] end ++ Text.runs keep y.
Proof.
  intros Hx Hc. unfold Text.runs at 1.
  rewrite runs_go_keep_app, app_nil_r, runs_go_rejected by done.
  destruct x as [|d x]; [done|].
  destruct (rev (d :: x)) eqn:E.
  - apply (f_equal length) in E. rewrite length_rev in E. done.
  - by rewrite <-E, rev_involutive.
Qed.

Lemma runs_keep_all keep x :
  Forall (λ c, keep c = true) x →
  Text.runs keep x = match x with [] => [] | _ => [x] end.
Proof.
  intros Hx. unfold Text.runs.
  rewrite <-(app_nil_r x) at 1. rewrite runs_go_keep_app, app_nil_r by done.
  destruct x as [|d x]; [done|]. cbn [Text.runs_go].
  destruct (rev (d :: x)) eqn:E.
  - apply (f_equal length) in E. rewrite length_rev in E. done.
  - by rewrite <-E, rev_involutive.
Qed.

Lemma span_keep (keep : ascii → bool) l :
  Forall (λ c, keep c = true) l
  ∨ ∃ x c y, l = x ++ c :: y
             ∧ Forall (λ c, keep c = true) x ∧ keep c = false.
Proof.
  induction l as [|d l IH]; [by left|].
  destruct (keep d) eqn:Hd.
  - destruct IH as [Hl|(x & c & y & -> & Hx & Hc)].
    + left. by constructor.
    + right. exists (d :: x), c, y. split; [done|]. split; [by constructor|done].
  - right. by exists [], d, l.
Qed.

Lemma utr_occurs_words l :
  occurs utr (map Text.lower_char l)
  ↔ ∃ w, w ∈ Text.runs (λ c, negb (Text.is_space c)) l
         ∧ occurs utr (map Text.lower_char w).
Proof.
  remember (length l) as n eqn:Hn. revert l Hn.
  induction n as [n IH] using lt_wf_ind. intros l ->.
  destruct (span_keep (λ c, negb (Text.is_space c)) l)
    as [Hall|(x & c & y & -> & Hx & Hc)].
  - rewrite runs_keep_all by done. destruct l as [|d l].
    + split; [by intros ?%occurs_nil|]. by intros (w & ?%elem_of_nil & _).
    + setoid_rewrite list_elem_of_singleton. naive_solver.
  - apply negb_false_iff in Hc.
    rewrite runs_keep_sep by (by rewrite ?Hc).
    rewrite utr_occurs_sep by done.
    rewrite (IH (length y) ltac:(rewrite length_app; simpl; lia) y eq_refl).
    setoid_rewrite elem_of_app. destruct x as [|d x].
    + split.
      * intros [H|H]; [by apply occurs_nil in H|naive_solver].
      * intros (w & [?%elem_of_nil|Hw] & Ho); [done|]. right. eauto.
    + setoid_rewrite list_elem_of_singleton. naive_solver.
Qed.

Lemma runs_words_replace_nbsp l :
  Text.runs (λ c, negb (Text.is_space c)) (Text.replace_nbsp_chars l)
  = Text.runs (λ c, negb (Text.is_space c)) l.
Proof.
  unfold Text.runs, Text.replace_nbsp_chars. apply runs_go_map.
  - intros c. case_decide as Hc; [|done]. by rewrite Hc.
  - intros c Hc. case_decide as Hn; [|done]. by rewrite Hn in Hc.
Qed.

End header_facts.

(** X19. A label looks like a "utr" header exactly when its text,
    lower-cased, contains ["utr"]: replacing non-breaking spaces,
    collapsing white space and trimming have no effect on the decision.
    The three letters must be adjacent in one word (["U T R"] is not
    recognised), and any word that contains them is enough. *)
Theorem looks_like_utr_header_lower (h : string) :
  looks_like_utr_header h = Text.contains "utr" (Text.lower h).
Proof.
  apply eq_true_iff_eq. unfold looks_like_utr_header.
  rewrite !contains_occurs. fold utr.
  unfold normalize_header, Text.lower at 1, Text.strip, Text.split,
    Text.replace_nbsp.
  rewrite !chars_str, chars_join, runs_words_replace_nbsp.
  rewrite utr_occurs_strip, utr_occurs_join, <-utr_occurs_words.
  unfold Text.lower. by rewrite chars_str.
Qed.

Example utr_headers :
  looks_like_utr_header " UTR  No " = true
  ∧ looks_like_utr_header "Ref (Utr)" = true
  ∧ looks_like_utr_header "U T R" = false
  ∧ looks_like_utr_header "Neutral" = true
  ∧ looks_like_utr_header "Reference" = false.
Proof. repeat split; reflexivity. Qed.

(* ================================================================== *)
(** * Bands and the page *)
(* ================================================================== *)

Section band_order.

Lemma SFleb_trans f1 f2 f3 :
  SFleb f1 f2 = true → SFleb f2 f3 = true → SFleb f1 f3 = true.
Proof.
  unfold SFleb.
  destruct f1 as [s1|s1| |s1 m1 e1], f2 as [s2|s2| |s2 m2 e2],
    f3 as [s3|s3| |s3 m3 e3];
    try destruct s1; try destruct s2; try destruct s3; simpl;
    try congruence.
  all: destruct (Z.compare_spec e1 e2), (Z.compare_spec e2 e3),
         (Z.compare_spec e1 e3); subst; try lia; try congruence.
  all: rewrite ?Pos.compare_cont_spec; simpl.
  all: destruct (Pos.compare_spec m1 m2), (Pos.compare_spec m2 m3),
         (Pos.compare_spec m1 m3); subst; simpl; try lia; try congruence.
Qed.

Lemma leb_trans x y z :
  (x <=? y) = true → (y <=? z) = true → (x <=? z) = true.
Proof. rewrite !FloatAxioms.leb_spec. apply SFleb_trans. Qed.

(** Two numbers are comparable: when [b < a] fails, [a <= b] holds. *)
Lemma SF_not_ltb_leb f1 f2 w :
  SFleb w f1 = true → SFleb f2 f2 = true →
  SFltb f2 f1 = false → SFleb f1 f2 = true.
Proof.
  unfold SFleb, SFltb. rewrite (SFcompare_swap f1 f2).
  destruct f1 as [s1|s1| |s1 m1 e1], f2 as [s2|s2| |s2 m2 e2],
    w as [s3|s3| |s3 m3 e3];
    try destruct s1; try destruct s2; try destruct s3; simpl;
    try congruence.
  all: destruct (e1 ?= e2)%Z; simpl; try congruence.
  all: destruct (Pos.compare_cont Eq m1 m2); simpl; congruence.
Qed.

Lemma not_ltb_leb a b w :
  (w <=? a) = true → (b <=? b) = true → (b <? a) = false → (a <=? b) = true.
Proof.
  rewrite !FloatAxioms.leb_spec, FloatAxioms.ltb_spec. apply SF_not_ltb_leb.
Qed.

Lemma manual_band utrs m page :
  page_band utrs (Some m) page
  = {| x0_band := rect_x0 page; x1_band := m; mode := manual |}.
Proof. done. Qed.

Lemma hit_wider_manual utrs page m m' w :
  (m <=? m') = true →
  hit (y_min page) (page_band utrs (Some m) page) utrs w →
  hit (y_min page) (page_band utrs (Some m') page) utrs w.
Proof.
  intros Hm (Hy & Hb & Hin). split; [done|]. split; [|done].
  rewrite manual_band in *. apply in_band_edges in Hb as [Hl Hr].
  apply in_band_edges. simpl in *. split; [done|]. by eapply leb_trans.
Qed.

End band_order.

(** X20. A wider manual boundary loses nothing: with the boundary [m']
    at or right of [m], every identifier found with [m] is found with
    [m'], and on every page every highlight made with [m] is made with
    [m']. *)
Theorem wider_manual_boundary_keeps_matches (pdf : list Page)
    (utrs : gset string) (m m' : float) :
  (m <=? m') = true →
  (∀ u, ds_found (highlight_left_column_fast pdf utrs (Some m)) !! u
        = Some true →
        ds_found (highlight_left_column_fast pdf utrs (Some m')) !! u
        = Some true)
  ∧ Forall2 (λ hl hl', ∀ r, r ∈ hl → r ∈ hl')
      (ds_out (highlight_left_column_fast pdf utrs (Some m)))
      (ds_out (highlight_left_column_fast pdf utrs (Some m'))).
Proof.
  intros Hm. split.
  - intros u. rewrite !found_true_iff.
    intros (page & w & Hp & Hw & Hh & Hu). exists page, w.
    split; [done|]. split; [done|]. split; [|done].
    by eapply hit_wider_manual.
  - rewrite !highlight_out. apply Forall2_fmap, Forall_Forall2_diag.
    apply Forall_forall. intros page _ r.
    rewrite !list_elem_of_fmap. intros (w & -> & Hw). exists w.
    split; [done|]. apply list_elem_of_filter in Hw as [Hh Hw].
    apply list_elem_of_filter. split; [|done]. by eapply hit_wider_manual.
Qed.

Lemma wider_manual_boundary_witness :
  (∀ u, ds_found (highlight_left_column_fast [Samples.page_straddle]
                    Samples.utrs (Some 190)) !! u = Some true →
        ds_found (highlight_left_column_fast [Samples.page_straddle]
                    Samples.utrs (Some 220)) !! u = Some true)
  ∧ Forall2 (λ hl hl', ∀ r, r ∈ hl → r ∈ hl')
      (ds_out (highlight_left_column_fast [Samples.page_straddle]
                 Samples.utrs (Some 190)))
      (ds_out (highlight_left_column_fast [Samples.page_straddle]
                 Samples.utrs (Some 220))).
Proof.
  apply (wider_manual_boundary_keeps_matches [Samples.page_straddle]
           Samples.utrs 190 220).
  reflexivity.
Defined.

(** X21. Without a manual boundary no highlight reaches beyond the right
    edge of the page: the right edge of every highlighted word is at or
    left of [page.rect.x1] (the edge being a number). *)
Theorem auto_highlights_stay_on_the_page (utrs : gset string) (pno : nat)
    (page : Page) (fm : gmap string bool) (r : Rect) :
  (rect_x1 page <=? rect_x1 page) = true →
  r ∈ highlights (fst (process_page utrs None pno page fm)) →
  (r_x1 r <=? rect_x1 page) = true.
Proof.
  intros Hnum Hr.
  apply elem_of_page_highlights in Hr as (w & _ & (_ & Hb & _) & ->).
  apply in_band_edges in Hb as [_ Hb]. simpl.
  eapply leb_trans; [apply Hb|].
  revert Hb. unfold page_band, compute_band.
  destruct (sample_left_x _ _ _) as [x0|]; cbn [x1_band]; unfold py_min.
  - destruct (_ <? rect_x1 page) eqn:E; intros Hb; [by apply ltb_leb|done].
  - destruct (rect_x1 page <? _) eqn:E; intros Hb; [done|].
    by eapply not_ltb_leb.
Qed.

Lemma auto_highlights_stay_on_the_page_witness :
  (r_x1 (word_rect (Samples.word 50 200 100 "Q1435783"))
     <=? rect_x1 Samples.page_straddle) = true.
Proof.
  apply (auto_highlights_stay_on_the_page Samples.utrs 1
           Samples.page_straddle ∅).
  - reflexivity.
  - apply elem_of_cons. left. reflexivity.
Defined.
